(** * kedro.io.hdf_s3 : HDFS3DataSet

    A shallow embedding of [kedro/io/hdf_s3.py].  The adapter holds no
    algorithm of its own: it threads a path, a key and two option
    dictionaries through three collaborators (the s3fs client, kedro's
    versioning helper and the pandas/PyTables HDF store).  The collaborators
    are interfaces here (type classes); the adapter's methods are monadic
    programs over a world made of the Python heap, the bucket contents and
    the list of collaborator calls made so far. *)

From Stdlib Require Import ZArith Ascii String.
From stdpp Require Import gmap strings list.

Local Open Scope string_scope.

Set Warnings "-clear-no-such-hyp".

(** ** Python values and the heap of dictionaries *)

Module Py.

Abbreviation loc := nat (only parsing).

(** The values a [Dict[str, Any]] of options or credentials holds: atoms
    and references to further dictionaries. *)
Inductive pyval :=
| VNone
| VBool (b : bool)
| VInt (z : Z)
| VStr (s : string)
| VRef (l : loc).

Abbreviation dict := (gmap string pyval) (only parsing).
Abbreviation heap := (gmap nat (gmap string pyval)) (only parsing).

Inductive exn :=
| TypeError (msg : string)
| KeyError (key : string)
| ValueError (msg : string)
| FileNotFoundError (path : string)
| PermissionError (path : string)
| VersionNotFoundError (msg : string)
| DataSetError (msg : string)
| RecursionError.

Inductive res (A : Type) :=
| Ok (a : A)
| Raise (e : exn).
Arguments Ok {A} a.
Arguments Raise {A} e.

(** [bool(x)] *)
Definition truthy (h : heap) (v : pyval) : bool :=
  match v with
  | VNone => false
  | VBool b => b
  | VInt z => negb (Z.eqb z 0)
  | VStr s => negb (String.eqb s "")
  | VRef l => match h !! l with
              | Some d => negb (bool_decide (d = ∅))
              | None => true
              end
  end.

(** [s.startswith("/")] *)
Definition startswith_slash (s : string) : bool :=
  match s with
  | String c _ => bool_decide (c = "/"%char)
  | EmptyString => false
  end.

(** State of a running [copy.deepcopy]: the memo (source object to its
    copy) and the heap being extended. *)
Abbreviation copy_state :=
  (gmap nat nat * gmap nat (gmap string pyval))%type (only parsing).

Fixpoint copy_items (f : pyval → copy_state → option (pyval * copy_state))
    (items : list (string * pyval)) (st : copy_state)
    : option (list (string * pyval) * copy_state) :=
  match items with
  | [] => Some ([], st)
  | (k, x) :: rest =>
      match f x st with
      | None => None
      | Some (x', st1) =>
          match copy_items f rest st1 with
          | None => None
          | Some (rest', st2) => Some ((k, x') :: rest', st2)
          end
      end
  end.

(** [copy.deepcopy(x, memo)] on atoms and dictionaries.  An atom is returned
    as it is; a dictionary already in the memo yields its copy; otherwise an
    empty dictionary is allocated and memoised before the items are copied
    into it ([copy._deepcopy_dict]).  The fuel bounds the nesting depth. *)
Fixpoint deepcopy_val (fuel : nat) (v : pyval) (st : copy_state)
    : option (pyval * copy_state) :=
  match v with
  | VRef l =>
      match st.1 !! l with
      | Some l' => Some (VRef l', st)
      | None =>
          match fuel with
          | O => None
          | S fuel' =>
              match st.2 !! l with
              | None => None
              | Some d =>
                  let l' := fresh (dom st.2) in
                  let st0 := (<[l := l']> st.1, <[l' := ∅]> st.2) in
                  match copy_items (deepcopy_val fuel') (map_to_list d) st0 with
                  | None => None
                  | Some (items, st1) =>
                      Some (VRef l',
                            (st1.1, <[l' := list_to_map items]> st1.2))
                  end
              end
          end
      end
  | _ => Some (v, st)
  end.

End Py.

(** ** pathlib.PurePosixPath *)

Module Pathlib.

Fixpoint split_on (sep : ascii) (s : string) : list string :=
  match s with
  | EmptyString => [EmptyString]
  | String c s' =>
      if Ascii.eqb c sep then EmptyString :: split_on sep s'
      else match split_on sep s' with
           | [] => [String c EmptyString]
           | w :: ws => String c w :: ws
           end
  end.

Fixpoint leading (sep : ascii) (s : string) : nat :=
  match s with
  | String c s' => if Ascii.eqb c sep then S (leading sep s') else O
  | EmptyString => O
  end.

Fixpoint join (sep : string) (l : list string) : string :=
  match l with
  | [] => EmptyString
  | [x] => x
  | x :: rest => x +:+ sep +:+ join sep rest
  end.

(** A parsed path: the root ([""], ["/"] or ["//"]) and the components. *)
Record PurePosixPath := { root : string; parts : list string }.

(** [_PosixFlavour.splitroot]: exactly two leading slashes are kept, any
    other number of them is one. *)
Definition splitroot (s : string) : string :=
  match leading "/" s with
  | 0 => ""
  | 2 => "//"
  | _ => "/"
  end.

Definition keep_part (x : string) : bool :=
  negb (String.eqb x "") && negb (String.eqb x ".").

(** [PurePosixPath(s)]: empty components and ["."] are dropped. *)
Definition parse (s : string) : PurePosixPath :=
  {| root := splitroot s; parts := List.filter keep_part (split_on "/" s) |}.

(** [str(p)] *)
Definition str (p : PurePosixPath) : string :=
  match root p, parts p with
  | EmptyString, [] => "."
  | r, ps => r +:+ join "/" ps
  end.

(** [p.name] *)
Definition name (p : PurePosixPath) : string := List.last (parts p) "".

(** [p / s] for a relative [s]; an absolute [s] replaces [p]. *)
Definition joinpath (p : PurePosixPath) (s : string) : PurePosixPath :=
  let q := parse s in
  match root q with
  | EmptyString => {| root := root p; parts := parts p ++ parts q |}
  | _ => q
  end.

End Pathlib.

Export Py Pathlib.

(** ** The dataset object, the world and the monad of its methods *)

Definition bytes := list Byte.byte.

(** [kedro.io.core.Version]: a named tuple of two optional strings. *)
Record Version := { load : option string; save : option string }.

(** The s3fs client as the adapter builds it: the arguments of
    [S3FileSystem(client_kwargs=_credentials, **_s3fs_args)]. *)
Record S3FileSystem := { client_kwargs : pyval; s3_kwargs : dict }.

(** The attributes [__init__] sets on [self]. *)
Record HDFS3DataSet := {
  _filepath : PurePosixPath;
  _version : option Version;
  _key : string;
  _load_args : loc;
  _save_args : loc;
  _s3 : S3FileSystem;
}.

(** Calls that leave the adapter, in the order they are made. *)
Inductive event :=
| Warned (name : string)
| S3Init
| ResolveLoad
| ResolveSave
| S3Isfile (path : string)
| S3Read (path : string)
| S3Write (path : string)
| HdfOpen (mode : string)
| HdfPut (key : string)
| HdfImage
| HdfGet (key : string)
| HdfKeys.

Record world := {
  dicts : heap;                      (* Python dictionaries *)
  insts : gmap loc HDFS3DataSet;     (* dataset instances *)
  remote : gmap string bytes;        (* the bucket: object path to content *)
  calls : list event;                (* collaborator calls so far *)
  clock : string;                    (* what generate_timestamp() would return *)
}.

Definition set_dicts (h : heap) (w : world) : world :=
  {| dicts := h; insts := insts w; remote := remote w; calls := calls w;
     clock := clock w |}.
Definition set_insts (i : gmap loc HDFS3DataSet) (w : world) : world :=
  {| dicts := dicts w; insts := i; remote := remote w; calls := calls w;
     clock := clock w |}.
Definition set_remote (r : gmap string bytes) (w : world) : world :=
  {| dicts := dicts w; insts := insts w; remote := r; calls := calls w;
     clock := clock w |}.
Definition log (ev : event) (w : world) : world :=
  {| dicts := dicts w; insts := insts w; remote := remote w;
     calls := calls w ++ [ev]; clock := clock w |}.

(** A method: from a world to a value or a raised exception, and the world
    it leaves (an exception keeps what was done before it). *)
Definition M (A : Type) : Type := world → res A * world.

Definition ret {A} (a : A) : M A := λ w, (Ok a, w).
Definition raise {A} (e : exn) : M A := λ w, (Raise e, w).
Definition bind {A B} (c : M A) (k : A → M B) : M B :=
  λ w, match c w with
       | (Ok a, w') => k a w'
       | (Raise e, w') => (Raise e, w')
       end.
Definition lift {A} (r : res A) : M A := λ w, (r, w).
Definition tell (ev : event) : M unit := λ w, (Ok tt, log ev w).
Definition read {A} (f : world → A) : M A := λ w, (Ok (f w), w).

Notation "'let!' x ':=' c 'in' k" := (bind c (λ x, k))
  (at level 10, x name, c at level 100, k at level 200).

(** ** The collaborators *)

Inductive s3_call :=
| CallIsfile (path : string)
| CallOpenRead (path : string)
| CallOpenWrite (path : string).

(** s3fs.  The bucket itself is the [remote] map of the world; the class
    holds what the library decides: how a protocol prefix is stripped, and
    when the constructor or a call fails (credentials, connectivity). *)
Class StorageClient := {
  _strip_protocol : string → string;
  s3_init_fault : heap → pyval → dict → option exn;
  s3_fault : heap → S3FileSystem → s3_call → option exn;
}.

(** pandas.HDFStore over PyTables, with the arguments the adapter passes:
    path, mode, driver, driver_core_backing_store, driver_core_image and the
    remaining keyword arguments. *)
Class TableFileLibrary := {
  DataFrame : Type;
  HDFStore : Type;
  hdf_open : heap → string → string → string → Z → option bytes → dict → res HDFStore;
  store_put : HDFStore → string → DataFrame → string → res HDFStore;
  get_file_image : HDFStore → res bytes;
  store_getitem : HDFStore → string → res DataFrame;
  store_keys : HDFStore → list string;
}.

(** kedro.io.core: the versioning helper of [AbstractVersionedDataSet] and
    [deprecation_warning].  Both path resolutions read the world (the bucket
    through the client's callbacks, the clock) and change nothing. *)
Class KedroCore := {
  deprecation_warning : string → res unit;
  _get_load_path : HDFS3DataSet → world → res PurePosixPath;
  _get_save_path : HDFS3DataSet → world → res PurePosixPath;
}.

(** ** HDFS3DataSet *)

Definition HDFSTORE_DRIVER : string := "H5FD_CORE".

Definition DEFAULT_LOAD_ARGS : dict := ∅.
Definition DEFAULT_SAVE_ARGS : dict := ∅.

(** [copy.deepcopy(v)] with a fresh memo. *)
Definition deepcopy (v : pyval) : M pyval :=
  λ w, match deepcopy_val (S (size (dicts w))) v (∅, dicts w) with
       | Some (v', st) => (Ok v', set_dicts st.2 w)
       | None => (Raise RecursionError, w)
       end.

(** A dictionary display: a new object. *)
Definition new_dict (d : dict) : M loc :=
  λ w, let l := fresh (dom (dicts w)) in (Ok l, set_dicts (<[l := d]> (dicts w)) w).

(** [v or {}] *)
Definition or_empty_dict (v : pyval) : M pyval :=
  let! t := read (λ w, truthy (dicts w) v) in
  if t then ret v else let! l := new_dict ∅ in ret (VRef l).

(** The dictionary a mapping argument refers to; anything else is no
    mapping. *)
Definition as_mapping (what : string) (v : pyval) : M dict :=
  match v with
  | VRef l =>
      let! o := read (λ w, dicts w !! l) in
      match o with
      | Some d => ret d
      | None => raise (TypeError what)
      end
  | _ => raise (TypeError what)
  end.

(** A call [f(k1=…, …, **kwargs)]: a key of [kwargs] that repeats an explicit
    keyword is a [TypeError] before [f] runs. *)
Definition check_keywords (explicit : list string) (kwargs : dict) : res unit :=
  match List.find (λ k, bool_decide (is_Some (kwargs !! k))) explicit with
  | Some k => Raise (TypeError ("got multiple values for keyword argument " +:+ k))
  | None => Ok tt
  end.

(** [d.update(other)] on the dictionary at [l]: the items of [other] win. *)
Definition dict_update (l : loc) (other : pyval) : M unit :=
  let! o := as_mapping "update" other in
  λ w, (Ok tt, set_dicts (alter (λ d, o ∪ d) l (dicts w)) w).

Section Adapter.
Context {SC : StorageClient} {TL : TableFileLibrary} {KC : KedroCore}.

(** [S3FileSystem(client_kwargs=_credentials, **_s3fs_args)] *)
Definition S3FileSystem_new (_credentials _s3fs_args : pyval) : M S3FileSystem :=
  let! kwargs := as_mapping "argument after ** must be a mapping" _s3fs_args in
  let! _ := lift (check_keywords ["client_kwargs"] kwargs) in
  let! _ := tell S3Init in
  let! fault := read (λ w, s3_init_fault (dicts w) _credentials kwargs) in
  match fault with
  | Some e => raise e
  | None => ret {| client_kwargs := _credentials; s3_kwargs := kwargs |}
  end.

(** [fs.isfile(path)] *)
Definition s3_isfile (fs : S3FileSystem) (path : string) : M bool :=
  let! _ := tell (S3Isfile path) in
  let! fault := read (λ w, s3_fault (dicts w) fs (CallIsfile path)) in
  match fault with
  | Some e => raise e
  | None => read (λ w, bool_decide (is_Some (remote w !! path)))
  end.

(** [with fs.open(path, mode="rb") as f: f.read()] *)
Definition s3_open_read (fs : S3FileSystem) (path : string) : M bytes :=
  let! _ := tell (S3Read path) in
  let! fault := read (λ w, s3_fault (dicts w) fs (CallOpenRead path)) in
  match fault with
  | Some e => raise e
  | None =>
      let! o := read (λ w, remote w !! path) in
      match o with
      | Some b => ret b
      | None => raise (FileNotFoundError path)
      end
  end.

(** [with fs.open(path, mode="wb") as f: f.write(data)] *)
Definition s3_open_write (fs : S3FileSystem) (path : string) (data : bytes) : M unit :=
  let! _ := tell (S3Write path) in
  let! fault := read (λ w, s3_fault (dicts w) fs (CallOpenWrite path)) in
  match fault with
  | Some e => raise e
  | None => λ w, (Ok tt, set_remote (<[path := data]> (remote w)) w)
  end.

(** [pd.HDFStore(path, mode=…, driver=…, driver_core_backing_store=…,
    [driver_core_image=…,] **kwargs)] *)
Definition pd_HDFStore (h : heap) (path mode driver : string) (backing : Z)
    (image : option bytes) (kwargs : dict) : res HDFStore :=
  let explicit :=
    (["mode"; "driver"; "driver_core_backing_store"]
     ++ match image with Some _ => ["driver_core_image"] | None => [] end)%list in
  match check_keywords explicit kwargs with
  | Raise e => Raise e
  | Ok _ => hdf_open h path mode driver backing image kwargs
  end.

(** The attributes of [self]. *)
Definition get_self (self : loc) : M HDFS3DataSet :=
  let! o := read (λ w, insts w !! self) in
  match o with
  | Some ds => ret ds
  | None => raise (TypeError "not an HDFS3DataSet")
  end.

(** [self._get_load_path()] and [self._get_save_path()] *)
Definition resolve_load_path (ds : HDFS3DataSet) : M PurePosixPath :=
  let! w := read id in
  let! _ := tell ResolveLoad in
  lift (_get_load_path ds w).

Definition resolve_save_path (ds : HDFS3DataSet) : M PurePosixPath :=
  let! w := read id in
  let! _ := tell ResolveSave in
  lift (_get_save_path ds w).

(** [self._key if self._key.startswith("/") else "/" + self._key] *)
Definition key_with_slash (key : string) : string :=
  if startswith_slash key then key else "/" +:+ key.

(** Modelled from the spec: [AbstractVersionedDataSet.__init__] is missing
    from this file; it stores the path and the version selector it is given
    (the two callbacks of the client go to the versioning helper, which is
    the class [KedroCore] here). *)
Definition super_init (path : PurePosixPath) (version : option Version)
    : PurePosixPath * option Version := (path, version).

(** [HDFS3DataSet(...)]: the body of [__init__], and the new instance as its
    result. *)
Definition __init__ (filepath key : string) (bucket_name : option string)
    (credentials load_args save_args : pyval) (version : option Version)
    (s3fs_args : pyval) : M loc :=
  let! _ := tell (Warned "HDFS3DataSet") in
  let! _ := lift (deprecation_warning "HDFS3DataSet") in
  let! c := deepcopy credentials in
  let! _credentials := or_empty_dict c in
  let! a := deepcopy s3fs_args in
  let! _s3fs_args := or_empty_dict a in
  let! s3 := S3FileSystem_new _credentials _s3fs_args in
  let path := _strip_protocol filepath in
  let path :=
    parse (match bucket_name with
           | Some b => if negb (String.eqb b "") then b +:+ "/" +:+ path else path
           | None => path
           end) in
  let attrs := super_init path version in
  let! la := new_dict DEFAULT_LOAD_ARGS in
  let! _ := match load_args with VNone => ret tt | _ => dict_update la load_args end in
  let! sa := new_dict DEFAULT_SAVE_ARGS in
  let! _ := match save_args with VNone => ret tt | _ => dict_update sa save_args end in
  λ w, let self := fresh (dom (insts w)) in
       (Ok self,
        set_insts (<[self := {| _filepath := attrs.1; _version := attrs.2;
                                _key := key; _load_args := la; _save_args := sa;
                                _s3 := s3 |}]>
                     (insts w)) w).

(** The values of the mapping [_describe] returns; a dictionary is there by
    reference. *)
Inductive described :=
| DPath (p : PurePosixPath)
| DStr (s : string)
| DDict (l : loc)
| DVersion (v : option Version).

Definition _describe (self : loc) : M (gmap string described) :=
  let! ds := get_self self in
  ret (<["filepath" := DPath (_filepath ds)]>
       (<["key" := DStr (_key ds)]>
        (<["load_args" := DDict (_load_args ds)]>
         (<["save_args" := DDict (_save_args ds)]>
          (<["version" := DVersion (_version ds)]> ∅))))).

(** [**self._load_args], [**self._save_args] *)
Definition unpack (l : loc) : M dict :=
  as_mapping "argument after ** must be a mapping" (VRef l).

(** The [with] blocks of the three methods release the stream and the store
    on the way out; that has no part in what the methods return or write. *)
Definition _load (self : loc) : M DataFrame :=
  let! ds := get_self self in
  let! load_path := resolve_load_path ds in
  let! binary_data := s3_open_read (_s3 ds) (str load_path) in
  let! kwargs := unpack (_load_args ds) in
  let! _ := tell (HdfOpen "r") in
  let! h := read dicts in
  let! store :=
    lift (pd_HDFStore h (str (_filepath ds)) "r" HDFSTORE_DRIVER 0
            (Some binary_data) kwargs) in
  let! _ := tell (HdfGet (_key ds)) in
  lift (store_getitem store (_key ds)).

Definition _save (self : loc) (data : DataFrame) : M unit :=
  let! ds := get_self self in
  let! p := resolve_save_path ds in
  let save_path := str p in
  let! kwargs := unpack (_save_args ds) in
  let! _ := tell (HdfOpen "w") in
  let! h := read dicts in
  let! store :=
    lift (pd_HDFStore h (str (_filepath ds)) "w" HDFSTORE_DRIVER 0 None kwargs) in
  let! _ := tell (HdfPut (_key ds)) in
  let! store := lift (store_put store (_key ds) data "table") in
  let! _ := tell HdfImage in
  let! binary_data := lift (get_file_image store) in
  s3_open_write (_s3 ds) save_path binary_data.

Definition _exists (self : loc) : M bool :=
  let! ds := get_self self in
  let! p := resolve_load_path ds in
  let load_path := str p in
  let! isfile := s3_isfile (_s3 ds) load_path in
  if isfile then
    let! binary_data := s3_open_read (_s3 ds) load_path in
    let! kwargs := unpack (_load_args ds) in
    let! _ := tell (HdfOpen "r") in
    let! h := read dicts in
    let! store :=
      lift (pd_HDFStore h (str (_filepath ds)) "r" HDFSTORE_DRIVER 0
              (Some binary_data) kwargs) in
    let! _ := tell HdfKeys in
    ret (bool_decide (key_with_slash (_key ds) ∈ store_keys store))
  else ret false.

End Adapter.

(** ** Reference collaborators

    Small executable stand-ins for the three collaborators, in the way the
    repository's tests run the data set against a mocked bucket.  They give
    the theorems below concrete worlds to be evaluated on. *)

Module Ref.

(** *** s3fs *)

Fixpoint rstrip_slash (s : string) : string :=
  match s with
  | EmptyString => EmptyString
  | String c s' =>
      match rstrip_slash s' with
      | EmptyString => if Ascii.eqb c "/" then EmptyString else String c EmptyString
      | t => String c t
      end
  end.

Definition strip_prefix (p s : string) : option string :=
  if String.prefix p s
  then Some (String.substring (String.length p) (String.length s - String.length p) s)
  else None.

(** [S3FileSystem._strip_protocol] for the protocols [s3] and [s3a]. *)
Definition strip_protocol (path : string) : string :=
  rstrip_slash
    match strip_prefix "s3://" path with
    | Some rest => rest
    | None => match strip_prefix "s3a://" path with
              | Some rest => rest
              | None => path
              end
    end.

Definition s3 : StorageClient :=
  {| _strip_protocol := strip_protocol;
     s3_init_fault := λ _ _ _, None;
     s3_fault := λ _ _ _, None |}.

(** *** The table-file library *)

Record frame := { index : list Z; columns : list (string * list Z) }.

Record store := { mode : string; tables : list (string * frame) }.

Definition enc_blob (l : list Byte.byte) : option bytes :=
  n ← Byte.of_nat (length l); Some (n :: l).

Definition enc_str (s : string) : option bytes :=
  enc_blob (list_byte_of_string s).

Definition enc_cells (zs : list Z) : option bytes :=
  bs ← mapM (λ z, if Z.leb 0 z then Byte.of_nat (Z.to_nat z) else None) zs;
  enc_blob bs.

Definition enc_list {A} (f : A → option bytes) (l : list A) : option bytes :=
  n ← Byte.of_nat (length l);
  bodies ← mapM f l;
  Some (n :: concat bodies).

Definition enc_col (c : string * list Z) : option bytes :=
  a ← enc_str c.1; b ← enc_cells c.2; Some (a ++ b)%list.

Definition enc_frame (f : frame) : option bytes :=
  a ← enc_cells (index f); b ← enc_list enc_col (columns f); Some (a ++ b)%list.

Definition enc_entry (e : string * frame) : option bytes :=
  a ← enc_str e.1; b ← enc_frame e.2; Some (a ++ b)%list.

Definition encode (t : list (string * frame)) : option bytes :=
  enc_list enc_entry t.

Definition parser (A : Type) : Type := bytes → option (A * bytes).

Definition dec_blob : parser (list Byte.byte) :=
  λ bs, match bs with
        | b :: r =>
            let n := Byte.to_nat b in
            if Nat.leb n (length r) then Some (take n r, drop n r) else None
        | [] => None
        end.

Definition dec_map {A B} (f : A → B) (p : parser A) : parser B :=
  λ bs, match p bs with Some (a, r) => Some (f a, r) | None => None end.

Definition dec_pair {A B} (p : parser A) (q : parser B) : parser (A * B) :=
  λ bs, match p bs with
        | Some (a, r) => match q r with Some (b, r') => Some ((a, b), r') | None => None end
        | None => None
        end.

Fixpoint dec_seq {A} (n : nat) (p : parser A) : parser (list A) :=
  λ bs, match n with
        | O => Some ([], bs)
        | S n' =>
            match p bs with
            | Some (a, r) =>
                match dec_seq n' p r with Some (l, r') => Some (a :: l, r') | None => None end
            | None => None
            end
        end.

Definition dec_list {A} (p : parser A) : parser (list A) :=
  λ bs, match bs with b :: r => dec_seq (Byte.to_nat b) p r | [] => None end.

Definition dec_str : parser string := dec_map string_of_list_byte dec_blob.
Definition dec_cells : parser (list Z) :=
  dec_map (List.map (λ b, Z.of_nat (Byte.to_nat b))) dec_blob.
Definition dec_frame : parser frame :=
  dec_map (λ p, {| index := p.1; columns := p.2 |})
    (dec_pair dec_cells (dec_list (dec_pair dec_str dec_cells))).

Definition decode (bs : bytes) : option (list (string * frame)) :=
  match dec_list (dec_pair dec_str dec_frame) bs with
  | Some (t, []) => Some t
  | _ => None
  end.

(** The library keeps every key with a leading slash. *)
Definition norm_key (key : string) : string :=
  if startswith_slash key then key else "/" +:+ key.

Definition open (h : heap) (path mode driver : string) (backing : Z)
    (image : option bytes) (kwargs : dict) : res store :=
  if String.eqb mode "w" then Ok {| mode := "w"; tables := [] |}
  else if String.eqb mode "r" then
    match image with
    | Some bs =>
        match decode bs with
        | Some t => Ok {| mode := "r"; tables := t |}
        | None => Raise (ValueError "not an HDF5 file image")
        end
    | None => Raise (FileNotFoundError path)
    end
  else Raise (ValueError "mode").

Definition put (st : store) (key : string) (data : frame) (format : string) : res store :=
  if String.eqb (mode st) "r" then Raise (ValueError "store is read-only")
  else
    let k := norm_key key in
    let others := List.filter (λ e, negb (String.eqb e.1 k)) (tables st) in
    Ok {| mode := mode st; tables := (others ++ [(k, data)])%list |}.

Definition image (st : store) : res bytes :=
  match encode (tables st) with
  | Some bs => Ok bs
  | None => Raise (ValueError "cannot serialise")
  end.

Definition getitem (st : store) (key : string) : res frame :=
  match List.find (λ e, String.eqb e.1 (norm_key key)) (tables st) with
  | Some e => Ok e.2
  | None => Raise (KeyError key)
  end.

Definition keys (st : store) : list string := List.map fst (tables st).

Definition tables_lib : TableFileLibrary :=
  {| DataFrame := frame; HDFStore := store;
     hdf_open := open; store_put := put; get_file_image := image;
     store_getitem := getitem; store_keys := keys |}.

(** *** kedro.io.core *)

(** Modelled from the spec: how the helper lays versions out is missing from
    this file, and the spec asks no more than a concrete path per version;
    here a version of [path/to/file.hdf] lives at
    [path/to/file.hdf/<version>/file.hdf]. *)
Definition versioned_path (fp : PurePosixPath) (version : string) : PurePosixPath :=
  joinpath (joinpath fp version) (name fp).

(** The version a bucket key holds for [fp], if it is one of its versions. *)
Definition version_of (fp : PurePosixPath) (key : string) : option string :=
  match parts (parse key) !! length (parts fp) with
  | Some v => if String.eqb (str (versioned_path fp v)) key then Some v else None
  | None => None
  end.

Definition latest (vs : list string) : option string :=
  List.fold_right
    (λ v acc, match acc with
              | Some m => if String.ltb m v then Some v else Some m
              | None => Some v
              end) None vs.

(** Modelled from the spec: [AbstractVersionedDataSet._get_load_path] is
    missing from this file.  Without a version selector the path is the
    logical path; a caller-specified load version names its path; otherwise
    the most recent existing version is taken, and "no version found" is
    raised when there is none. *)
Definition get_load_path (ds : HDFS3DataSet) (w : world) : res PurePosixPath :=
  match _version ds with
  | None => Ok (_filepath ds)
  | Some v =>
      match load v with
      | Some lv => Ok (versioned_path (_filepath ds) lv)
      | None =>
          match latest (omap (version_of (_filepath ds)) (map_to_list (remote w)).*1) with
          | Some lv => Ok (versioned_path (_filepath ds) lv)
          | None => Raise (VersionNotFoundError "Did not find any versions")
          end
      end
  end.

(** Modelled from the spec: [AbstractVersionedDataSet._get_save_path] is
    missing from this file.  Without a version selector the path is the
    logical path; a caller-specified save version names its path; otherwise
    a fresh version identifier is generated from the clock. *)
Definition get_save_path (ds : HDFS3DataSet) (w : world) : res PurePosixPath :=
  match _version ds with
  | None => Ok (_filepath ds)
  | Some v =>
      match save v with
      | Some sv => Ok (versioned_path (_filepath ds) sv)
      | None => Ok (versioned_path (_filepath ds) (clock w))
      end
  end.

Definition core : KedroCore :=
  {| deprecation_warning := λ _, Ok tt;
     _get_load_path := get_load_path;
     _get_save_path := get_save_path |}.

(** *** A session *)

Definition world0 : world :=
  {| dicts := ∅; insts := ∅; remote := ∅; calls := [];
     clock := "2019-01-01T23.59.59.999Z" |}.

(** The table of the class's docstring. *)
Definition data : frame :=
  {| index := [0; 1]%Z;
     columns := [("col1", [1; 2]%Z); ("col2", [4; 5]%Z); ("col3", [5; 6]%Z)] |}.

Definition ds_init := @__init__ s3 core.
Definition ds_load := @_load s3 tables_lib core.
Definition ds_save := @_save s3 tables_lib core.
Definition ds_exists := @_exists s3 tables_lib core.

(** The caller's dictionaries: load options at 0, credentials at 1 with a
    nested dictionary at 2, client options at 3. *)
Definition caller_heap : heap :=
  {[ 0 := {[ "title" := VStr "t" ]};
     1 := {[ "aws_access_key_id" := VStr "AKIA"; "config" := VRef 2 ]};
     2 := {[ "region_name" := VStr "eu-west-1" ]};
     3 := {[ "anon" := VBool false ]} ]}.

Definition world1 : world :=
  {| dicts := caller_heap; insts := ∅; remote := ∅; calls := [];
     clock := "2019-01-01T23.59.59.999Z" |}.

(** The session of the docstring: construct, save, load. *)
Definition constructed : res loc * world :=
  ds_init "s3://path/to/test.hdf" "test_hdf_key" (Some "test_bucket")
    (VRef 1) (VRef 0) VNone None (VRef 3) world1.
Definition w_new : world := constructed.2.
Definition w_saved : world := (ds_save 0 data w_new).2.

(** What that session leaves behind: the instance, its path, the store
    before and after the [put], and the bytes in the bucket. *)
Definition path0 : PurePosixPath := parse "test_bucket/path/to/test.hdf".
Definition ds0 : HDFS3DataSet :=
  {| _filepath := path0; _version := None; _key := "test_hdf_key";
     _load_args := 7; _save_args := 8;
     _s3 := {| client_kwargs := VRef 4; s3_kwargs := {[ "anon" := VBool false ]} |} |}.
Definition store_w : store := {| mode := "w"; tables := [] |}.
Definition store_put1 : store := {| mode := "w"; tables := [("/test_hdf_key", data)] |}.
Definition store_r : store := {| mode := "r"; tables := [("/test_hdf_key", data)] |}.
Definition image0 : bytes := default [] (encode [("/test_hdf_key", data)]).

Definition ds_latest : HDFS3DataSet :=
  {| _filepath := parse "test_bucket/test.hdf";
     _version := Some {| load := None; save := None |}; _key := "test_hdf_key";
     _load_args := 2; _save_args := 3;
     _s3 := {| client_kwargs := VRef 0; s3_kwargs := ∅ |} |}.

(** The bucket after something that is no table-file image was put at the
    path, and the saved session seen by a data set with another key. *)
Definition w_garbage : world :=
  set_remote {[ "test_bucket/path/to/test.hdf" := [Byte.x07] ]} w_new.
Definition ds_other_key : HDFS3DataSet :=
  {| _filepath := path0; _version := None; _key := "other_key";
     _load_args := 7; _save_args := 8; _s3 := _s3 ds0 |}.
Definition w_other_key : world := set_insts {[ 0 := ds_other_key ]} w_saved.

(** The saved session with [mode] among the load options, and the new one
    with [mode] among the save options. *)
Definition w_mode_load : world :=
  set_dicts (<[7 := {[ "mode" := VStr "a" ]}]> (dicts w_saved)) w_saved.
Definition w_mode_save : world :=
  set_dicts (<[8 := {[ "mode" := VStr "a" ]}]> (dicts w_new)) w_new.

(** A second table, and the session after it was saved over the first. *)
Definition data2 : frame := {| index := [0]%Z; columns := [("col1", [9]%Z)] |}.
Definition image2 : bytes := default [] (encode [("/test_hdf_key", data2)]).
Definition w_saved_twice : world := (ds_save 0 data2 w_saved).2.

(** The same with a version selector that pins two different versions. *)
Definition pinned : Version := {| load := Some "v1"; save := Some "v2" |}.
Definition constructed_pinned : res loc * world :=
  ds_init "test.hdf" "test_hdf_key" (Some "test_bucket") VNone VNone VNone
    (Some pinned) VNone world0.
Definition w_pinned : world := constructed_pinned.2.
Definition w_pinned_saved : world := (ds_save 0 data w_pinned).2.

(** The same with no version pinned and no version in the bucket. *)
Definition constructed_latest : res loc * world :=
  ds_init "test.hdf" "test_hdf_key" (Some "test_bucket") VNone VNone VNone
    (Some {| load := None; save := None |}) VNone world0.
Definition w_latest : world := constructed_latest.2.



End Ref.

(** * Vocabulary of the statements *)

(** [l] was allocated after [h0] was taken. *)
Definition new_in (h0 h : heap) (l : loc) : Prop := l ∈ dom h ∧ l ∉ dom h0.

(** [v] is an atom or a reference to such an object. *)
Definition val_new (h0 h : heap) (v : pyval) : Prop :=
  match v with VRef l => new_in h0 h l | _ => True end.

(** What a copy of [v] looks like: an atom is itself, a dictionary is a new
    object. *)
Definition copy_of (h0 h : heap) (v v' : pyval) : Prop :=
  match v with VRef _ => ∃ l', v' = VRef l' ∧ new_in h0 h l' | _ => v' = v end.

(** What a running [copy.deepcopy] keeps true of its memo and heap: the
    objects of [h0] are as they were, every copy is a new object, and new
    objects hold atoms and new objects only. *)
Record copy_inv (h0 : heap) (st : copy_state) : Prop := {
  inv_base : ∀ l, l ∈ dom h0 → st.2 !! l = h0 !! l;
  inv_memo : ∀ l l', st.1 !! l = Some l' → new_in h0 st.2 l';
  inv_new : ∀ l d k x,
    new_in h0 st.2 l → st.2 !! l = Some d → d !! k = Some x → val_new h0 st.2 x;
}.

(** Every object allocated since [h0] refers to such objects only. *)
Definition isolated (h0 h : heap) : Prop :=
  ∀ l d k x, new_in h0 h l → h !! l = Some d → d !! k = Some x → val_new h0 h x.

(** [h'] keeps every object of [h] as it is. *)
Definition keeps (h h' : heap) : Prop := ∀ l, l ∈ dom h → h' !! l = h !! l.

(** What the option dictionary at [r] holds after
    [copy.deepcopy(DEFAULT) … update(arg)]. *)
Definition updated_with (h0 : heap) (dflt : dict) (arg : pyval)
    (r : option dict) : Prop :=
  match arg with
  | VNone => r = Some dflt
  | VRef lo => lo ∈ dom h0 → ∃ u, h0 !! lo = Some u ∧ r = Some (u ∪ dflt)
  | _ => False
  end.

(** The path [__init__] hands to [super().__init__]. *)
Definition init_path {SC : StorageClient} (filepath : string)
    (bucket_name : option string) : PurePosixPath :=
  parse (match bucket_name with
         | Some b =>
             if negb (String.eqb b "") then b +:+ "/" +:+ _strip_protocol filepath
             else _strip_protocol filepath
         | None => _strip_protocol filepath
         end).

(** A relative path string already in the form [PurePosixPath] prints: no
    leading slash, no empty component, no ["."] component. *)
Definition normal (s : string) : bool :=
  Nat.eqb (leading "/" s) 0 && forallb keep_part (split_on "/" s).

(** A reference argument points to an object of the caller's heap. *)
Definition live (h : heap) (v : pyval) : Prop :=
  match v with VRef l => is_Some (h !! l) | _ => True end.

Definition liveb (h : heap) (v : pyval) : bool :=
  match v with VRef l => bool_decide (is_Some (h !! l)) | _ => true end.

(** [d] is [dflt] updated with the mapping [arg] refers to ([None]: with
    nothing). *)
Definition merged (h : heap) (dflt : dict) (arg : pyval) (d : dict) : Prop :=
  match arg with
  | VNone => d = dflt
  | VRef l =>
      ∃ user, h !! l = Some user ∧
        (∀ k v, user !! k = Some v → d !! k = Some v) ∧
        (∀ k, user !! k = None → d !! k = dflt !! k)
  | _ => False
  end.

(** The descriptor of a data set as a caller can observe it: the attributes
    and what the two option dictionaries hold. *)
Definition descriptor (self : loc) (w : world)
    : option (PurePosixPath * string * option dict * option dict * option Version) :=
  match insts w !! self with
  | Some ds =>
      Some (_filepath ds, _key ds, dicts w !! _load_args ds,
            dicts w !! _save_args ds, _version ds)
  | None => None
  end.

(** No dictionary of [h] refers to an object that is not in [h]. *)
Definition closed (h : heap) : Prop :=
  map_Forall (λ _ d, map_Forall (λ _ x, live h x) (d : dict)) h.

Definition closedb (h : heap) : bool :=
  forallb (λ ld, forallb (λ kx, liveb h kx.2) (map_to_list (ld.2 : dict)))
    (map_to_list h).

(** An argument typed [Dict[str, Any] = None]: [None] or a dictionary of
    the heap. *)
Definition mapping_or_none (h : heap) (v : pyval) : Prop :=
  v = VNone ∨ ∃ l, v = VRef l ∧ is_Some (h !! l).

(** The copy of a value under the memo [m]. *)
Definition rename (m : gmap loc loc) (v : pyval) : pyval :=
  match v with
  | VRef l => match m !! l with Some l' => VRef l' | None => v end
  | _ => v
  end.

(** Every dictionary [d] refers to has its copy in the memo. *)
Definition refs_in (m : gmap loc loc) (d : dict) : Prop :=
  ∀ k x, d !! k = Some (VRef x) → is_Some (m !! x).

(** The memo of a running [copy.deepcopy]: different objects have different
    copies, and the copy of an object that is not in progress (not in [P])
    holds the copies of what the object holds. *)
Record copy_iso (h0 : heap) (P : gset loc) (st : copy_state) : Prop := {
  iso_inj : ∀ l1 l2 l', st.1 !! l1 = Some l' → st.1 !! l2 = Some l' → l1 = l2;
  iso_done : ∀ l l', st.1 !! l = Some l' → l ∉ P →
    ∃ d, h0 !! l = Some d ∧ st.2 !! l' = Some (rename st.1 <$> d) ∧ refs_in st.1 d;
}.

(** [v] in [h] and [v'] in [h'] are equal down to [n] levels of nested
    dictionaries: equal atoms, dictionaries with the same keys. *)
Fixpoint deep_eq (n : nat) (h : heap) (v : pyval) (h' : heap) (v' : pyval) : Prop :=
  match v with
  | VRef l =>
      match n with
      | O => ∃ l', v' = VRef l'
      | S n' =>
          ∃ l' d d', v' = VRef l' ∧ h !! l = Some d ∧ h' !! l' = Some d' ∧
            ∀ k, option_Forall2 (λ x x', deep_eq n' h x h' x') (d !! k) (d' !! k)
      end
  | _ => v' = v
  end.

(** [l'] can be reached from [l] through the dictionaries of [h]. *)
Inductive reach (h : heap) : loc → loc → Prop :=
| reach_here l : reach h l l
| reach_step l d k x l' :
    h !! l = Some d → d !! k = Some (VRef x) → reach h x l' → reach h l l'.

(** The objects the client's configuration consists of. *)
Definition config_reach (h : heap) (fs : S3FileSystem) (l : loc) : Prop :=
  (∃ l0, client_kwargs fs = VRef l0 ∧ reach h l0 l) ∨
  (∃ k x, s3_kwargs fs !! k = Some (VRef x) ∧ reach h x l).

(** A client whose calls depend on the heap through its configuration
    only. *)
Definition client_local {SC : StorageClient} : Prop :=
  ∀ h h' fs call,
    (∀ l, config_reach h fs l → h' !! l = h !! l) →
    s3_fault h' fs call = s3_fault h fs call.

(** C1 as it is stated: whatever data set is constructed, [load()] after
    [save(data)] gives [data] back. *)
Definition roundtrip_as_stated : Prop :=
  ∀ filepath key bucket_name credentials load_args save_args version s3fs_args
    w self w1 data w2,
    Ref.ds_init filepath key bucket_name credentials load_args save_args version
      s3fs_args w = (Ok self, w1) →
    Ref.ds_save self data w1 = (Ok tt, w2) →
    (Ref.ds_load self w2).1 = Ok data.


(** What the table library does with an image of its own making: whenever
    it opens a new store with the save options, puts [data] under [key] in
    table format and gives the image of that store, it opens this image for
    reading with the load options, as a store for which [Q] holds. *)
Definition image_opens {TL : TableFileLibrary} (h : heap) (path key : string)
    (save_kwargs load_kwargs : dict) (data : DataFrame) (Q : HDFStore → Prop) : Prop :=
  ∀ store0 store1 img,
    hdf_open h path "w" HDFSTORE_DRIVER 0 None save_kwargs = Ok store0 →
    store_put store0 key data "table" = Ok store1 →
    get_file_image store1 = Ok img →
    ∃ store,
      hdf_open h path "r" HDFSTORE_DRIVER 0 (Some img) load_kwargs = Ok store ∧
      Q store.

(** The keywords [_load] and [_exists] pass to [pd.HDFStore] themselves, and
    those [_save] passes. *)
Definition load_keywords : list string :=
  ["mode"; "driver"; "driver_core_backing_store"; "driver_core_image"].
Definition save_keywords : list string :=
  ["mode"; "driver"; "driver_core_backing_store"].

(** The data set with another key. *)
Definition with_key (key : string) (ds : HDFS3DataSet) : HDFS3DataSet :=
  {| _filepath := _filepath ds; _version := _version ds; _key := key;
     _load_args := _load_args ds; _save_args := _save_args ds; _s3 := _s3 ds |}.

(** Calls that stay in the process. *)
Definition no_io (ev : event) : Prop :=
  match ev with Warned _ | S3Init => True | _ => False end.

(** A computation that leaves the bucket and the instances alone and makes
    no call on the bucket or the table library. *)
Definition offline {A} (c : M A) : Prop :=
  ∀ w, remote (c w).2 = remote w ∧ insts (c w).2 = insts w ∧
       clock (c w).2 = clock w ∧
       ∃ evs, calls (c w).2 = (calls w ++ evs)%list ∧ Forall no_io evs.

(** A constructor run: offline, except that a run that returns has added
    the one instance it returns, at a place that was free. *)
Definition constructs (c : M loc) : Prop :=
  ∀ w, remote (c w).2 = remote w ∧
       (∃ evs, calls (c w).2 = (calls w ++ evs)%list ∧ Forall no_io evs) ∧
       match (c w).1 with
       | Ok self => insts w !! self = None ∧
                    ∃ ds, insts (c w).2 = <[self:=ds]> (insts w)
       | Raise _ => insts (c w).2 = insts w
       end.


(** [s] has no slash in it. *)
Fixpoint slashless (s : string) : bool :=
  match s with
  | EmptyString => true
  | String c s' => negb (Ascii.eqb c "/") && slashless s'
  end.

(** * Properties *)

(** ** Running monadic programs *)

Lemma bind_Ok {A B} (c : M A) (k : A → M B) w a w' :
  c w = (Ok a, w') → bind c k w = k a w'.
Proof. intros E. unfold bind. by rewrite E. Qed.

Lemma bind_Ok_inv {A B} (c : M A) (k : A → M B) w b w2 :
  bind c k w = (Ok b, w2) → ∃ a w1, c w = (Ok a, w1) ∧ k a w1 = (Ok b, w2).
Proof.
  unfold bind. destruct (c w) as [[a|e] w1]; [eauto | discriminate].
Qed.

Lemma bind_eq {A B} (c : M A) (k : A → M B) w r w1 :
  c w = (r, w1) →
  bind c k w = match r with Ok a => k a w1 | Raise e => (Raise e, w1) end.
Proof. intros E. unfold bind. rewrite E. by destruct r. Qed.

Lemma bind_read {A B} (f : world → A) (k : A → M B) w :
  bind (read f) k w = k (f w) w.
Proof. reflexivity. Qed.

Lemma bind_tell {B} ev (k : unit → M B) w :
  bind (tell ev) k w = k tt (log ev w).
Proof. reflexivity. Qed.

Lemma bind_lift_Ok {A B} (r : res A) (k : A → M B) w a :
  r = Ok a → bind (lift r) k w = k a w.
Proof. by intros ->. Qed.

(** ** The heap under [copy.deepcopy] *)

Lemma new_in_mono h0 h h' l : dom h ⊆ dom h' → new_in h0 h l → new_in h0 h' l.
Proof. unfold new_in. set_solver. Qed.

Lemma val_new_mono h0 h h' v : dom h ⊆ dom h' → val_new h0 h v → val_new h0 h' v.
Proof. destruct v; simpl; eauto using new_in_mono. Qed.

Lemma copy_of_val_new h0 h v v' : copy_of h0 h v v' → val_new h0 h v'.
Proof.
  destruct v; simpl; try (intros ->; exact I).
  intros (l' & -> & Hn). exact Hn.
Qed.

Lemma copy_inv_dom h0 st : copy_inv h0 st → dom h0 ⊆ dom st.2.
Proof.
  intros [Hb _ _] l Hl. apply elem_of_dom. rewrite Hb by done.
  by apply elem_of_dom.
Qed.

Lemma copy_inv_start h0 : copy_inv h0 (∅, h0).
Proof.
  split; simpl.
  - done.
  - intros l l'. by rewrite lookup_empty.
  - intros l d k x [? ?]. done.
Qed.

Section copy_items.
Variable h0 : heap.
Variable f : pyval → copy_state → option (pyval * copy_state).
Hypothesis f_spec : ∀ x st x' st',
  copy_inv h0 st → f x st = Some (x', st') →
  copy_inv h0 st' ∧ dom st.2 ⊆ dom st'.2 ∧ st.1 ⊆ st'.1 ∧ copy_of h0 st'.2 x x'.

Lemma copy_items_inv items : ∀ st items' st',
  copy_inv h0 st → copy_items f items st = Some (items', st') →
  copy_inv h0 st' ∧ dom st.2 ⊆ dom st'.2 ∧ st.1 ⊆ st'.1 ∧
  Forall (λ kx, val_new h0 st'.2 kx.2) items'.
Proof.
  induction items as [|[k x] rest IH]; intros st items' st' Hinv Hrun; simpl in Hrun.
  - simplify_eq. split_and!; [done | done | done | constructor].
  - destruct (f x st) as [[x' st1]|] eqn:Hx; [|discriminate].
    destruct (copy_items f rest st1) as [[rest' st2]|] eqn:Hrest; [|discriminate].
    simplify_eq.
    destruct (f_spec _ _ _ _ Hinv Hx) as (Hinv1 & Hd1 & Hm1 & Hc1).
    destruct (IH _ _ _ Hinv1 Hrest) as (Hinv2 & Hd2 & Hm2 & Hall).
    split_and!; [done | set_solver | by etrans |].
    constructor; [|done]. simpl.
    eapply val_new_mono; [exact Hd2|]. by eapply copy_of_val_new.
Qed.
End copy_items.

Lemma copy_inv_reserve h0 (m : gmap nat nat) (h : gmap nat (gmap string pyval)) l :
  copy_inv h0 (m, h) →
  copy_inv h0 (<[l:=fresh (dom h)]> m, <[fresh (dom h):=∅]> h).
Proof.
  intros Hinv. set (l' := fresh (dom h)).
  assert (Hfresh : l' ∉ dom h) by apply is_fresh.
  pose proof (copy_inv_dom _ _ Hinv) as Hsub. simpl in Hsub.
  split; simpl.
  - intros x Hx. rewrite lookup_insert_ne; [by apply (inv_base _ _ Hinv)|].
    intros ->. set_solver.
  - intros x x'. rewrite lookup_insert. case_decide.
    + intros [= <-]. split; [set_solver | set_solver].
    + intros Hx. eapply new_in_mono; [|by eapply (inv_memo _ _ Hinv)].
      simpl. set_solver.
  - intros x dx k y Hx. rewrite lookup_insert. case_decide.
    + intros [= <-]. by rewrite lookup_empty.
    + intros Hdx Hy. eapply val_new_mono; [|eapply (inv_new _ _ Hinv); [|done..]].
      * simpl. set_solver.
      * destruct Hx as [Hx1 Hx2]. split; [|done]. simpl in *.
        apply elem_of_dom. rewrite Hdx. done.
Qed.

Lemma deepcopy_val_inv h0 fuel : ∀ v st v' st',
  copy_inv h0 st → deepcopy_val fuel v st = Some (v', st') →
  copy_inv h0 st' ∧ dom st.2 ⊆ dom st'.2 ∧ st.1 ⊆ st'.1 ∧ copy_of h0 st'.2 v v'.
Proof.
  induction fuel as [|fuel IH]; intros v [m h] v' st' Hinv Hrun;
    destruct v as [| | | |l]; simpl in Hrun; simplify_eq; try (split_and!; done).
  - destruct (m !! l) as [l'|] eqn:Hm; [|discriminate]. simplify_eq.
    split_and!; [done | done | done |]. simpl. exists l'. split; [done|].
    by eapply (inv_memo _ _ Hinv).
  - destruct (m !! l) as [l'|] eqn:Hm.
    { simplify_eq. split_and!; [done | done | done |]. simpl. exists l'.
      split; [done|]. by eapply (inv_memo _ _ Hinv). }
    destruct (h !! l) as [d|] eqn:Hd; [|discriminate].
    pose proof (copy_inv_reserve _ _ _ l Hinv) as Hinv0.
    set (l' := fresh (dom h)) in *.
    destruct (copy_items _ _ _) as [[items st1]|] eqn:Hitems; [|discriminate].
    simplify_eq.
    assert (Hfresh : l' ∉ dom h) by apply is_fresh.
    pose proof (copy_inv_dom _ _ Hinv) as Hsub. simpl in Hsub.
    destruct (copy_items_inv h0 _ (IH) _ _ _ _ Hinv0 Hitems)
      as (Hinv1 & Hd1 & Hm1 & Hall).
    simpl in Hd1, Hm1.
    assert (Hl'1 : l' ∈ dom st1.2) by set_solver.
    assert (Hdom : dom (<[l':=list_to_map items]> st1.2) = dom st1.2).
    { rewrite dom_insert_L. set_solver. }
    split_and!.
    + split; simpl.
      * intros x Hx. rewrite lookup_insert_ne; [by apply (inv_base _ _ Hinv1)|].
        intros ->. set_solver.
      * intros x x' Hx. destruct (inv_memo _ _ Hinv1 _ _ Hx) as [? ?].
        split; [|done]. by rewrite Hdom.
      * intros x dx k y [Hx1 Hx2]. rewrite Hdom in Hx1.
        rewrite lookup_insert. case_decide.
        -- intros [= <-] Hy. apply elem_of_list_to_map_2 in Hy.
           rewrite Forall_forall in Hall. apply Hall in Hy. simpl in Hy.
           eapply val_new_mono; [|exact Hy]. by rewrite Hdom.
        -- intros Hdx Hy. eapply val_new_mono; [|eapply (inv_new _ _ Hinv1); [|done..]].
           ++ by rewrite Hdom.
           ++ by split.
    + simpl. rewrite Hdom. set_solver.
    + simpl. etrans; [|exact Hm1]. by apply insert_subseteq.
    + simpl. exists l'. split; [done|]. split; [by rewrite Hdom | set_solver].
Qed.

(** *** [copy.deepcopy] returns *)

Section copy_total.
Variable h0 : heap.
Hypothesis h0_closed : closed h0.

Lemma closed_items l d :
  h0 !! l = Some d → Forall (λ kx, live h0 kx.2) (map_to_list d).
Proof.
  intros Hd. apply Forall_forall. intros [k x] Hkx.
  apply elem_of_map_to_list in Hkx. by eapply (h0_closed l d Hd k x).
Qed.

Lemma copy_items_total f (n : nat) :
  (∀ x st x' st',
     copy_inv h0 st → f x st = Some (x', st') →
     copy_inv h0 st' ∧ dom st.2 ⊆ dom st'.2 ∧ st.1 ⊆ st'.1 ∧ copy_of h0 st'.2 x x') →
  (∀ x st, copy_inv h0 st → live h0 x → (size (dom h0 ∖ dom st.1) ≤ n)%nat →
           is_Some (f x st)) →
  ∀ items st,
    copy_inv h0 st → Forall (λ kx, live h0 kx.2) items →
    (size (dom h0 ∖ dom st.1) ≤ n)%nat → is_Some (copy_items f items st).
Proof.
  intros Hspec Htot. induction items as [|[k x] rest IH]; intros st Hinv Hlive Hn.
  - simpl. eauto.
  - apply Forall_cons in Hlive as [Hx Hrest]. simpl in *.
    destruct (Htot x st Hinv Hx Hn) as [[x' st1] Hrun]. rewrite Hrun.
    destruct (Hspec _ _ _ _ Hinv Hrun) as (Hinv1 & _ & Hm1 & _).
    destruct (IH st1 Hinv1 Hrest) as [[rest' st2] Hrun2].
    { etrans; [|exact Hn]. apply subseteq_size.
      apply subseteq_dom in Hm1. set_solver. }
    rewrite Hrun2. eauto.
Qed.

Lemma deepcopy_val_total (fuel : nat) : ∀ v st,
  copy_inv h0 st → live h0 v → (size (dom h0 ∖ dom st.1) ≤ fuel)%nat →
  is_Some (deepcopy_val fuel v st).
Proof.
  induction fuel as [|fuel IH]; intros v [m h] Hinv Hlive Hn;
    destruct v as [| | | |l]; simpl; eauto; simpl in Hlive, Hn.
  - destruct (m !! l) as [l'|] eqn:Hm; [eauto|]. exfalso.
    assert (Hl : l ∈ dom h0 ∖ dom m).
    { apply elem_of_difference. split; [by apply elem_of_dom|].
      by apply not_elem_of_dom. }
    assert (size (dom h0 ∖ dom m) ≠ 0); [|lia].
    intros Hz%size_empty_inv. set_solver.
  - destruct (m !! l) as [l'|] eqn:Hm; [eauto|].
    destruct Hlive as [d Hd].
    assert (Hl0 : l ∈ dom h0) by (apply elem_of_dom; eauto).
    rewrite (inv_base _ _ Hinv) by done. simpl. rewrite Hd.
    pose proof (copy_inv_reserve _ _ _ l Hinv) as Hinv0.
    destruct (copy_items_total (deepcopy_val fuel) fuel (deepcopy_val_inv h0 fuel) IH
                (map_to_list d) _ Hinv0) as [[items st1] Hrun].
    + by eapply closed_items.
    + simpl. rewrite dom_insert_L.
      assert (Hsz : size (dom h0 ∖ dom m) = S (size (dom h0 ∖ ({[l]} ∪ dom m)))).
      { assert (Heq : dom h0 ∖ ({[l]} ∪ dom m) = (dom h0 ∖ dom m) ∖ {[l]}) by set_solver.
        apply not_elem_of_dom in Hm.
        rewrite Heq, (size_difference (dom h0 ∖ dom m) {[l]}) by set_solver.
        rewrite size_singleton.
        assert (size (dom h0 ∖ dom m) ≠ 0); [|lia].
        intros Hz%size_empty_inv. set_solver. }
      lia.
    + rewrite Hrun. eauto.
Qed.

End copy_total.

(** *** [copy.deepcopy] copies *)

Lemma rename_weaken (m m' : gmap nat nat) v :
  m ⊆ m' → (∀ l, v = VRef l → is_Some (m !! l)) → rename m' v = rename m v.
Proof.
  intros Hsub Hv. destruct v as [| | | |l]; simpl; try done.
  destruct (Hv l eq_refl) as [l' Hl']. rewrite Hl'.
  by rewrite (lookup_weaken _ _ _ _ Hl' Hsub).
Qed.

Lemma refs_in_weaken (m m' : gmap nat nat) d : m ⊆ m' → refs_in m d → refs_in m' d.
Proof.
  intros Hsub Hd k x Hx. destruct (Hd k x Hx) as [l' Hl'].
  exists l'. by eapply lookup_weaken.
Qed.

Lemma fmap_rename_weaken (m m' : gmap nat nat) (d : gmap string pyval) :
  m ⊆ m' → refs_in m d → rename m' <$> d = rename m <$> d.
Proof.
  intros Hsub Hd. apply map_eq. intros k. rewrite !lookup_fmap.
  destruct (d !! k) as [x|] eqn:Hx; simpl; [|done]. f_equal.
  apply rename_weaken; [done|]. intros l ->. by eapply Hd.
Qed.

Section copy_iso.
Variable h0 : heap.
Hypothesis h0_closed : closed h0.

Lemma copy_iso_start : copy_iso h0 ∅ (∅, h0).
Proof. split; simpl; intros ?; intros; by simplify_map_eq. Qed.

Lemma copy_items_iso f P :
  (∀ x st x' st',
     copy_inv h0 st → f x st = Some (x', st') →
     copy_inv h0 st' ∧ dom st.2 ⊆ dom st'.2 ∧ st.1 ⊆ st'.1 ∧ copy_of h0 st'.2 x x') →
  (∀ x st x' st',
     copy_inv h0 st → copy_iso h0 P st → live h0 x → f x st = Some (x', st') →
     copy_iso h0 P st' ∧ x' = rename st'.1 x ∧
     (∀ l, x = VRef l → is_Some (st'.1 !! l))) →
  ∀ items st items' st',
    copy_inv h0 st → copy_iso h0 P st → Forall (λ kx, live h0 kx.2) items →
    copy_items f items st = Some (items', st') →
    copy_iso h0 P st' ∧ items' = prod_map id (rename st'.1) <$> items ∧
    Forall (λ kx, ∀ l, kx.2 = VRef l → is_Some (st'.1 !! l)) items.
Proof.
  intros Hspec Hiso.
  induction items as [|[k x] rest IH]; intros st items' st' Hinv His Hlive Hrun;
    simpl in Hrun.
  - simplify_eq. split_and!; [done | done | constructor].
  - destruct (f x st) as [[x' st1]|] eqn:Hx; [|discriminate].
    destruct (copy_items f rest st1) as [[rest' st2]|] eqn:Hrest; [|discriminate].
    simplify_eq. apply Forall_cons in Hlive as [Hlx Hlrest]. simpl in Hlx.
    destruct (Hspec _ _ _ _ Hinv Hx) as (Hinv1 & _ & _ & _).
    destruct (Hiso _ _ _ _ Hinv His Hlx Hx) as (His1 & -> & Hin1).
    destruct (copy_items_inv h0 f Hspec _ _ _ _ Hinv1 Hrest) as (_ & _ & Hm2 & _).
    destruct (IH _ _ _ Hinv1 His1 Hlrest Hrest) as (His2 & -> & Hin2).
    split_and!; [done | |].
    + simpl. f_equal. unfold prod_map. simpl. f_equal.
      symmetry. by apply rename_weaken.
    + constructor; [|done]. simpl. intros l Hl.
      destruct (Hin1 l Hl) as [l' Hl']. exists l'. by eapply lookup_weaken.
Qed.

Lemma deepcopy_val_iso fuel : ∀ v st v' st' P,
  copy_inv h0 st → copy_iso h0 P st → live h0 v →
  deepcopy_val fuel v st = Some (v', st') →
  copy_iso h0 P st' ∧ v' = rename st'.1 v ∧
  (∀ l, v = VRef l → is_Some (st'.1 !! l)).
Proof.
  induction fuel as [|fuel IH]; intros v [m h] v' st' P Hinv His Hlive Hrun;
    destruct v as [| | | |l]; simpl in Hrun; simplify_eq; try (split_and!; done).
  - destruct (m !! l) as [l'|] eqn:Hm; [|discriminate]. simplify_eq.
    split_and!; [done | by simpl; rewrite Hm |]. intros ? [= <-]. simpl. eauto.
  - destruct (m !! l) as [l'|] eqn:Hm.
    { simplify_eq. split_and!; [done | by simpl; rewrite Hm |].
      intros ? [= <-]. simpl. eauto. }
    destruct (h !! l) as [d|] eqn:Hd; [|discriminate].
    pose proof (copy_inv_reserve _ _ _ l Hinv) as Hinv0.
    set (l' := fresh (dom h)) in *.
    destruct (copy_items _ _ _) as [[items st1]|] eqn:Hitems; [|discriminate].
    simplify_eq.
    assert (Hfresh : l' ∉ dom h) by apply is_fresh.
    simpl in Hlive.
    assert (Hl0 : l ∈ dom h0) by by apply elem_of_dom.
    assert (Hd0 : h0 !! l = Some d).
    { rewrite <- (inv_base _ _ Hinv) by done. done. }
    assert (Hsub0 : m ⊆ <[l:=l']> m) by by apply insert_subseteq.
    assert (His0 : copy_iso h0 (P ∪ {[l]}) (<[l:=l']> m, <[l':=∅]> h)).
    { split; simpl.
      - intros l1 l2 x. rewrite !lookup_insert. repeat case_decide; simplify_eq.
        + done.
        + intros [= <-] Hl2. destruct (inv_memo _ _ Hinv _ _ Hl2) as [Hin _].
          simpl in Hin. done.
        + intros Hl1 [= <-]. destruct (inv_memo _ _ Hinv _ _ Hl1) as [Hin _].
          simpl in Hin. done.
        + by apply (iso_inj _ _ _ His).
      - intros l2 l2' Hl2 Hn2.
        rewrite lookup_insert_ne in Hl2 by set_solver.
        destruct (iso_done _ _ _ His l2 l2' Hl2) as (d2 & Hd2 & Hc2 & Hr2);
          [set_solver|]. simpl in Hc2.
        exists d2. split_and!; [done | | by eapply refs_in_weaken].
        rewrite lookup_insert_ne.
        + by rewrite (fmap_rename_weaken m).
        + intros <-. apply Hfresh. apply elem_of_dom. by rewrite Hc2. }
    destruct (copy_items_iso (deepcopy_val fuel) (P ∪ {[l]})
                (deepcopy_val_inv h0 fuel)
                (λ x st x' st' Hi Hs Hl Hr, IH x st x' st' _ Hi Hs Hl Hr)
                _ _ _ _ Hinv0 His0 (closed_items h0 h0_closed _ _ Hd0) Hitems)
      as (His1 & -> & Hrefs).
    destruct (copy_items_inv h0 _ (deepcopy_val_inv h0 fuel) _ _ _ _ Hinv0 Hitems)
      as (Hinv1 & _ & Hm1 & _). simpl in Hm1.
    assert (Hl1 : st1.1 !! l = Some l').
    { eapply lookup_weaken; [|exact Hm1]. apply lookup_insert_eq. }
    split_and!.
    + split; simpl.
      * apply (iso_inj _ _ _ His1).
      * intros l2 l2' Hl2 Hn2. destruct (decide (l2 = l)) as [->|Hne].
        -- simplify_eq. exists d. split_and!; [done | |].
           ++ rewrite lookup_insert_eq. f_equal.
              rewrite list_to_map_fmap. by rewrite list_to_map_to_list.
           ++ intros k x Hx. rewrite Forall_forall in Hrefs.
              apply (Hrefs (k, VRef x)); [|done]. by apply elem_of_map_to_list.
        -- destruct (iso_done _ _ _ His1 l2 l2' Hl2) as (d2 & Hd2 & Hc2 & Hr2);
             [set_solver|].
           exists d2. split_and!; [done | | done].
           rewrite lookup_insert_ne; [done|]. intros <-.
           apply Hne. by eapply (iso_inj _ _ _ His1).
    + simpl. by rewrite Hl1.
    + intros ? [= <-]. simpl. eauto.
Qed.

Lemma iso_deep_eq m h' :
  copy_iso h0 ∅ (m, h') →
  ∀ n v, (∀ l, v = VRef l → is_Some (m !! l)) → deep_eq n h0 v h' (rename m v).
Proof.
  intros His. induction n as [|n IH]; intros v Hv;
    destruct v as [| | | |l]; simpl; try done;
    destruct (Hv l eq_refl) as [l' Hl']; rewrite Hl'; [by eauto|].
  destruct (iso_done _ _ _ His l l' Hl') as (d & Hd & Hc & Hr); [set_solver|].
  simpl in Hc. exists l', d, (rename m <$> d). split_and!; [done..|].
  intros k. rewrite lookup_fmap. destruct (d !! k) as [x|] eqn:Hx; simpl.
  - constructor. apply IH. intros y ->. by eapply Hr.
  - constructor.
Qed.

End copy_iso.

Lemma deepcopy_total v w :
  closed (dicts w) → live (dicts w) v → ∃ v' w', deepcopy v w = (Ok v', w').
Proof.
  intros Hc Hv. unfold deepcopy.
  destruct (deepcopy_val_total (dicts w) Hc (S (size (dicts w))) v (∅, dicts w))
    as [[v' st] Hrun]; [apply copy_inv_start | done | |].
  - simpl. rewrite dom_empty_L, difference_empty_L, size_dom. lia.
  - rewrite Hrun. eauto.
Qed.

Lemma keeps_refl h : keeps h h.
Proof. by intros l. Qed.

Lemma keeps_dom h h' : keeps h h' → dom h ⊆ dom h'.
Proof.
  intros Hk l Hl. apply elem_of_dom. rewrite Hk by done. by apply elem_of_dom.
Qed.

Lemma keeps_trans h1 h2 h3 : keeps h1 h2 → keeps h2 h3 → keeps h1 h3.
Proof.
  intros H12 H23 l Hl. rewrite H23; [by apply H12|].
  by apply (keeps_dom _ _ H12).
Qed.

Lemma keeps_alloc (h : heap) l d : l ∉ dom h → keeps h (<[l:=d]> h).
Proof. intros Hl x Hx. rewrite lookup_insert_ne; [done|]. intros ->. done. Qed.

Lemma isolated_refl h : isolated h h.
Proof. intros l d k x [? ?]. done. Qed.

Lemma isolated_alloc_empty h0 (h : heap) l :
  dom h0 ⊆ dom h → l ∉ dom h → isolated h0 h → isolated h0 (<[l:=∅]> h).
Proof.
  intros Hsub Hl Hiso x d k y [Hx1 Hx2]. rewrite lookup_insert. case_decide.
  - intros [= <-]. by rewrite lookup_empty.
  - intros Hd Hy. eapply val_new_mono; [|eapply Hiso; [|done..]].
    + rewrite dom_insert_L. set_solver.
    + split; [|done]. apply elem_of_dom. by rewrite Hd.
Qed.

Lemma deepcopy_spec v w v' w' :
  deepcopy v w = (Ok v', w') →
  ∃ h', w' = set_dicts h' w ∧ keeps (dicts w) h' ∧
        copy_of (dicts w) h' v v' ∧ isolated (dicts w) h'.
Proof.
  unfold deepcopy.
  destruct (deepcopy_val _ _ _) as [[v1 st]|] eqn:Hrun; [|discriminate].
  intros [= <- <-]. exists st.2.
  destruct (deepcopy_val_inv (dicts w) _ _ _ _ _ (copy_inv_start _) Hrun)
    as (Hinv & _ & _ & Hc).
  split_and!; [done | exact (inv_base _ _ Hinv) | done | exact (inv_new _ _ Hinv)].
Qed.

Lemma isolated_extend h0 h1 h2 :
  dom h0 ⊆ dom h1 → isolated h0 h1 → keeps h1 h2 → isolated h1 h2 → isolated h0 h2.
Proof.
  intros Hsub H01 Hk H12 l d k x [Hl1 Hl2] Hd Hx.
  pose proof (keeps_dom _ _ Hk) as Hd12.
  destruct (decide (l ∈ dom h1)) as [Hin|Hout].
  - rewrite Hk in Hd by done.
    eapply val_new_mono; [exact Hd12|]. eapply H01; [by split|done..].
  - assert (Hv : val_new h1 h2 x) by (eapply H12; [by split|done..]).
    destruct x; simpl in *; try done. destruct Hv. split; [done | set_solver].
Qed.

Lemma or_empty_dict_spec v w v' w' :
  or_empty_dict v w = (Ok v', w') →
  (v' = v ∧ w' = w ∧ truthy (dicts w) v = true) ∨
  (truthy (dicts w) v = false ∧
   let l := fresh (dom (dicts w)) in
   v' = VRef l ∧ w' = set_dicts (<[l:=∅]> (dicts w)) w).
Proof.
  unfold or_empty_dict. rewrite bind_read.
  destruct (truthy (dicts w) v) eqn:Ht.
  - intros [= <- <-]. by left.
  - intros [= <- <-]. by right.
Qed.

Lemma as_mapping_eq what l w :
  as_mapping what (VRef l) w =
  (match dicts w !! l with Some d => Ok d | None => Raise (TypeError what) end, w).
Proof. unfold as_mapping. rewrite bind_read. by destruct (dicts w !! l). Qed.

Lemma as_mapping_spec what v w d w' :
  as_mapping what v w = (Ok d, w') →
  w' = w ∧ ∃ l, v = VRef l ∧ dicts w !! l = Some d.
Proof.
  destruct v as [| | | |l]; simpl; try discriminate.
  rewrite bind_read. destruct (dicts w !! l) as [d'|] eqn:Hd; [|discriminate].
  intros [= <- <-]. eauto.
Qed.

Lemma check_keywords_spec explicit (kwargs : gmap string pyval) u :
  check_keywords explicit kwargs = Ok u →
  ∀ k, k ∈ explicit → kwargs !! k = None.
Proof.
  unfold check_keywords.
  destruct (List.find _ _) as [k|] eqn:Hf; [discriminate|].
  intros _ k Hk.
  apply list_elem_of_In in Hk.
  pose proof (List.find_none _ _ Hf _ Hk) as Hn. simpl in Hn.
  apply bool_decide_eq_false in Hn.
  destruct (kwargs !! k) eqn:E; [|done]. exfalso. apply Hn. eauto.
Qed.

(** An explicit keyword of [pd.HDFStore(...)] cannot be given again through
    the option dictionary. *)
Lemma pd_HDFStore_Ok {TL : TableFileLibrary} h path mode driver backing image
    (kwargs : gmap string pyval) store :
  pd_HDFStore h path mode driver backing image kwargs = Ok store →
  hdf_open h path mode driver backing image kwargs = Ok store ∧
  kwargs !! "mode" = None ∧ kwargs !! "driver" = None ∧
  kwargs !! "driver_core_backing_store" = None ∧
  (is_Some image → kwargs !! "driver_core_image" = None).
Proof.
  unfold pd_HDFStore. destruct (check_keywords _ _) as [[]|e] eqn:Hc; [|discriminate].
  intros Hopen. pose proof (check_keywords_spec _ _ _ Hc) as Hk.
  split_and!; [done | apply Hk; set_solver.. |].
  intros [b ->]. apply Hk. set_solver.
Qed.

Lemma pd_HDFStore_duplicate {TL : TableFileLibrary} h path mode driver backing image
    (kwargs : gmap string pyval) :
  is_Some (kwargs !! "mode") →
  ∃ msg, pd_HDFStore h path mode driver backing image kwargs = Raise (TypeError msg).
Proof.
  intros Hm. unfold pd_HDFStore, check_keywords. simpl List.find.
  rewrite bool_decide_eq_true_2 by done. eauto.
Qed.

Lemma check_keywords_Raise explicit (kwargs : gmap string pyval) k :
  k ∈ explicit → is_Some (kwargs !! k) →
  ∃ msg, check_keywords explicit kwargs = Raise (TypeError msg).
Proof.
  intros Hk Hsome. unfold check_keywords.
  destruct (List.find _ _) as [k'|] eqn:Hf; [eauto|]. exfalso.
  apply list_elem_of_In in Hk.
  pose proof (List.find_none _ _ Hf _ Hk) as Hn. simpl in Hn.
  by apply bool_decide_eq_false in Hn.
Qed.

Lemma check_keywords_Ok explicit (kwargs : gmap string pyval) :
  (∀ k, k ∈ explicit → kwargs !! k = None) → check_keywords explicit kwargs = Ok tt.
Proof.
  intros Hnone. unfold check_keywords.
  destruct (List.find _ _) as [k|] eqn:Hf; [|done]. exfalso.
  apply List.find_some in Hf as [Hk Hsome]. apply list_elem_of_In in Hk.
  apply bool_decide_eq_true in Hsome. rewrite (Hnone k Hk) in Hsome.
  by destruct Hsome.
Qed.

Lemma pd_HDFStore_keyword {TL : TableFileLibrary} h path mode driver backing image
    (kwargs : gmap string pyval) k :
  k ∈ (if image is Some _ then load_keywords else save_keywords) →
  is_Some (kwargs !! k) →
  ∃ msg, pd_HDFStore h path mode driver backing image kwargs = Raise (TypeError msg).
Proof.
  intros Hk Hsome. unfold pd_HDFStore.
  destruct (check_keywords_Raise
              (["mode"; "driver"; "driver_core_backing_store"]
               ++ match image with Some _ => ["driver_core_image"] | None => [] end)%list
              kwargs k) as [msg ->]; [|done|eauto].
  destruct image; simpl in *; done.
Qed.

Lemma pd_HDFStore_free {TL : TableFileLibrary} h path mode driver backing image
    (kwargs : gmap string pyval) :
  (∀ k, k ∈ (if image is Some _ then load_keywords else save_keywords) →
        kwargs !! k = None) →
  pd_HDFStore h path mode driver backing image kwargs =
  hdf_open h path mode driver backing image kwargs.
Proof.
  intros Hnone. unfold pd_HDFStore. rewrite check_keywords_Ok; [done|].
  intros k Hk. apply Hnone. destruct image; simpl in *; done.
Qed.

Lemma dict_update_spec l other w u w' :
  dict_update l other w = (Ok u, w') →
  ∃ lo o, other = VRef lo ∧ dicts w !! lo = Some o ∧
          w' = set_dicts (alter (λ d, o ∪ d) l (dicts w)) w.
Proof.
  unfold dict_update. intros Hrun.
  apply bind_Ok_inv in Hrun as (o & w1 & Hm & Hrun).
  apply as_mapping_spec in Hm as (-> & lo & -> & Ho).
  injection Hrun as <-. eauto.
Qed.

Lemma closedb_closed h : closedb h = true → closed h.
Proof.
  unfold closedb. rewrite forallb_forall. intros Hall l d Hd k x Hx.
  assert (Hld : In (l, d) (map_to_list h)).
  { apply list_elem_of_In. by apply elem_of_map_to_list. }
  apply Hall in Hld. simpl in Hld. rewrite forallb_forall in Hld.
  assert (Hkx : In (k, x) (map_to_list d)).
  { apply list_elem_of_In. by apply elem_of_map_to_list. }
  apply Hld in Hkx. simpl in Hkx.
  destruct x; simpl in *; try done. by apply bool_decide_eq_true in Hkx.
Qed.

Lemma live_keeps h h' v : keeps h h' → live h v → live h' v.
Proof.
  intros Hk. destruct v as [| | | |l]; simpl; try done.
  intros Hl. rewrite Hk; [done|]. by apply elem_of_dom.
Qed.

Lemma closed_extend h0 h : closed h0 → keeps h0 h → isolated h0 h → closed h.
Proof.
  intros Hc Hk Hiso l d Hd k x Hx.
  destruct (decide (l ∈ dom h0)) as [Hin|Hout].
  - rewrite Hk in Hd by done. eapply live_keeps; [done|].
    by eapply (Hc l d Hd k x).
  - assert (Hv : val_new h0 h x).
    { eapply Hiso; [|done..]. split; [|done]. apply elem_of_dom. by rewrite Hd. }
    destruct x; simpl in *; try done. destruct Hv as [Hv _]. by apply elem_of_dom.
Qed.

Lemma deep_eq_keeps_r n h v h1 h2 v' :
  keeps h1 h2 → deep_eq n h v h1 v' → deep_eq n h v h2 v'.
Proof.
  intros Hk. revert v v'. induction n as [|n IH]; intros v v';
    destruct v as [| | | |l]; simpl; try done.
  intros (l' & d & d' & -> & Hd & Hd' & Hall).
  exists l', d, d'. split_and!; [done | done | |].
  - rewrite Hk; [done|]. apply elem_of_dom. by rewrite Hd'.
  - intros k. specialize (Hall k).
    destruct Hall; constructor. by apply IH.
Qed.

Lemma deep_eq_keeps_l n h0 h v h' v' :
  closed h0 → keeps h0 h → live h0 v → deep_eq n h v h' v' → deep_eq n h0 v h' v'.
Proof.
  intros Hc Hk. revert v v'. induction n as [|n IH]; intros v v';
    destruct v as [| | | |l]; simpl; try done.
  intros Hl (l' & d & d' & -> & Hd & Hd' & Hall).
  rewrite Hk in Hd by by apply elem_of_dom.
  exists l', d, d'. split_and!; [done..|].
  intros k. specialize (Hall k).
  destruct (d !! k) as [x|] eqn:Hx; inversion Hall; simplify_eq; constructor.
  apply IH; [|done]. by eapply (Hc l d Hd k x).
Qed.

Lemma deepcopy_deep_eq v w v' w' :
  closed (dicts w) → live (dicts w) v → deepcopy v w = (Ok v', w') →
  ∀ n, deep_eq n (dicts w) v (dicts w') v'.
Proof.
  intros Hc Hv. unfold deepcopy.
  destruct (deepcopy_val _ _ _) as [[v1 [m h']]|] eqn:Hrun; [|discriminate].
  intros [= <- <-] n. simpl.
  destruct (deepcopy_val_iso (dicts w) Hc _ _ _ _ _ ∅ (copy_inv_start _)
              (copy_iso_start _) Hv Hrun) as (His & -> & Hin).
  simpl in *. by apply iso_deep_eq.
Qed.

Lemma truthy_false_ref (h : gmap nat (gmap string pyval)) l :
  truthy h (VRef l) = false → h !! l = Some ∅.
Proof.
  simpl. destruct (h !! l) as [d|]; [|discriminate].
  intros Hd%negb_false_iff%bool_decide_eq_true. by subst.
Qed.

Lemma opt_update_spec (dflt : gmap string pyval) arg l w u w' :
  (match arg with VNone => ret tt | _ => dict_update l arg end) w = (Ok u, w') →
  dicts w !! l = Some dflt →
  ∃ d, w' = set_dicts (<[l:=d]> (dicts w)) w ∧
       match arg with
       | VNone => d = dflt
       | VRef lo => ∃ o, dicts w !! lo = Some o ∧ d = o ∪ dflt
       | _ => False
       end.
Proof.
  intros Hrun Hl.
  assert (Hupd : dict_update l arg w = (Ok u, w') →
    ∃ d, w' = set_dicts (<[l:=d]> (dicts w)) w ∧
         ∃ lo o, arg = VRef lo ∧ dicts w !! lo = Some o ∧ d = o ∪ dflt).
  { intros Hu. apply dict_update_spec in Hu as (lo & o & -> & Ho & ->).
    exists (o ∪ dflt). split; [|by eauto]. f_equal.
    apply map_eq. intros x. rewrite lookup_alter, lookup_insert.
    case_decide; simplify_eq; [by rewrite Hl | done]. }
  destruct arg as [| | | |lo];
    [ injection Hrun as <-; exists dflt; split; [|done];
      unfold set_dicts; rewrite insert_id by done; by destruct w
    | apply Hupd in Hrun as (? & _ & ? & ? & ? & _); discriminate ..
    | apply Hupd in Hrun as (d & -> & ? & o & [= <-] & ? & ->); eauto ].
Qed.

Lemma deepcopy_step h0 v w v' w' :
  deepcopy v w = (Ok v', w') → keeps h0 (dicts w) → isolated h0 (dicts w) →
  ∃ h', w' = set_dicts h' w ∧ keeps (dicts w) h' ∧ keeps h0 h' ∧
        isolated h0 h' ∧ val_new h0 h' v' ∧ (v = VNone → v' = VNone) ∧
        (closed h0 → live h0 v → ∀ n, deep_eq n h0 v h' v').
Proof.
  intros Hrun Hk Hiso.
  pose proof Hrun as Hrun'.
  apply deepcopy_spec in Hrun as (h' & -> & Hk' & Hc & Hiso').
  pose proof (keeps_dom _ _ Hk) as Hsub.
  exists h'. split_and!; [done | done | by eapply keeps_trans | | | |].
  - by eapply isolated_extend.
  - apply copy_of_val_new in Hc. destruct v'; simpl in *; try done.
    destruct Hc. split; [done | set_solver].
  - intros ->. exact Hc.
  - intros Hcl Hv n. eapply deep_eq_keeps_l; [done..|].
    eapply (deepcopy_deep_eq _ _ _ _ _ _ Hrun').
    Unshelve.
    + by eapply closed_extend.
    + by eapply live_keeps.
Qed.

Lemma or_empty_step h0 v w v' w' :
  or_empty_dict v w = (Ok v', w') → keeps h0 (dicts w) → isolated h0 (dicts w) →
  val_new h0 (dicts w) v →
  ∃ h', w' = set_dicts h' w ∧ keeps (dicts w) h' ∧ keeps h0 h' ∧
        isolated h0 h' ∧ val_new h0 h' v' ∧
        (v = VNone → ∃ l, v' = VRef l ∧ h' !! l = Some ∅) ∧
        (∀ l0, (∀ n, deep_eq n h0 (VRef l0) (dicts w) v) →
               ∀ n, deep_eq n h0 (VRef l0) h' v').
Proof.
  intros Hrun Hk Hiso Hv.
  pose proof (keeps_dom _ _ Hk) as Hsub.
  apply or_empty_dict_spec in Hrun as [(-> & -> & Ht)|(Ht & Hrun)].
  - exists (dicts w). split_and!; [by destruct w | apply keeps_refl | done..| |done].
    intros ->. discriminate.
  - cbn zeta in Hrun. destruct Hrun as [-> ->].
    set (l := fresh (dom (dicts w))).
    assert (Hl : l ∉ dom (dicts w)) by apply is_fresh.
    exists (<[l:=∅]> (dicts w)).
    split_and!; [done | by apply keeps_alloc | | | | |].
    + eapply keeps_trans; [done | by apply keeps_alloc].
    + by apply isolated_alloc_empty.
    + simpl. split; [rewrite dom_insert_L; set_solver | set_solver].
    + intros _. exists l. split; [done|]. apply lookup_insert_eq.
    + intros l0 Heq n.
      destruct (Heq 1) as (lc & d & dc & -> & Hd & Hdc & Hall).
      apply truthy_false_ref in Ht. rewrite Ht in Hdc. injection Hdc as <-.
      destruct n as [|n]; simpl; [by eauto|].
      exists l, d, ∅. split_and!; [done | done | apply lookup_insert_eq |].
      intros k. specialize (Hall k). rewrite lookup_empty in Hall |- *.
      inversion Hall. constructor.
Qed.

(** ** The constructor, step by step *)

Section Construction.
Context {SC : StorageClient} {KC : KedroCore}.

Lemma S3FileSystem_new_spec c a w fs w' :
  S3FileSystem_new c a w = (Ok fs, w') →
  w' = log S3Init w ∧ client_kwargs fs = c ∧
  ∃ l, a = VRef l ∧ dicts w !! l = Some (s3_kwargs fs).
Proof.
  unfold S3FileSystem_new. intros Hrun.
  apply bind_Ok_inv in Hrun as (kw & w1 & Hm & Hrun).
  apply as_mapping_spec in Hm as (-> & l & -> & Hl).
  apply bind_Ok_inv in Hrun as ([] & w2 & Hc & Hrun).
  assert (w2 = w) as -> by (unfold lift in Hc; by injection Hc).
  rewrite bind_tell, bind_read in Hrun.
  destruct (s3_init_fault _ _ _); [discriminate|].
  injection Hrun as <- <-. split_and!; [done | done |]. eauto.
Qed.

Lemma init_inv filepath key bucket_name credentials load_args save_args version
    s3fs_args w self w' :
  __init__ filepath key bucket_name credentials load_args save_args version
    s3fs_args w = (Ok self, w') →
  ∃ h5 fs d_la d_sa,
    let lla := fresh (dom h5) in
    let lsa := fresh (dom (<[lla:=d_la]> h5)) in
    keeps (dicts w) h5 ∧ isolated (dicts w) h5 ∧
    val_new (dicts w) h5 (client_kwargs fs) ∧
    (∀ k x, s3_kwargs fs !! k = Some x → val_new (dicts w) h5 x) ∧
    (credentials = VNone → ∃ l0, client_kwargs fs = VRef l0 ∧ h5 !! l0 = Some ∅) ∧
    (s3fs_args = VNone → s3_kwargs fs = ∅) ∧
    dicts w' = <[lsa:=d_sa]> (<[lla:=d_la]> h5) ∧
    updated_with (dicts w) DEFAULT_LOAD_ARGS load_args (Some d_la) ∧
    updated_with (dicts w) DEFAULT_SAVE_ARGS save_args (Some d_sa) ∧
    self = fresh (dom (insts w)) ∧
    insts w' = <[self := {| _filepath := init_path filepath bucket_name;
                            _version := version; _key := key;
                            _load_args := lla; _save_args := lsa; _s3 := fs |}]>
                 (insts w) ∧
    remote w' = remote w ∧ clock w' = clock w ∧
    (closed (dicts w) → ∀ l, credentials = VRef l → is_Some (dicts w !! l) →
     ∀ n, deep_eq n (dicts w) credentials h5 (client_kwargs fs)) ∧
    (closed (dicts w) → ∀ l, s3fs_args = VRef l → is_Some (dicts w !! l) →
     ∃ la, h5 !! la = Some (s3_kwargs fs) ∧
           ∀ n, deep_eq n (dicts w) s3fs_args h5 (VRef la)).
Proof.
  unfold __init__. intros Hrun.
  rewrite bind_tell in Hrun.
  apply bind_Ok_inv in Hrun as ([] & w0 & Hw & Hrun).
  assert (Hw0 : w0 = log (Warned "HDFS3DataSet") w).
  { unfold lift in Hw. by injection Hw. }
  subst w0.
  set (h0 := dicts w) in *.
  (* credentials *)
  apply bind_Ok_inv in Hrun as (c & w1 & Hc & Hrun).
  apply (deepcopy_step h0) in Hc as (h1 & -> & _ & Hk1 & Hi1 & Hv1 & Hn1 & He1);
    [|apply keeps_refl|apply isolated_refl].
  apply bind_Ok_inv in Hrun as (c' & w2 & Hc' & Hrun).
  apply (or_empty_step h0) in Hc' as (h2 & -> & Hk12 & Hk2 & Hi2 & Hv2 & Hn2 & He2);
    [|done..].
  (* s3fs_args *)
  apply bind_Ok_inv in Hrun as (a & w3 & Ha & Hrun).
  apply (deepcopy_step h0) in Ha as (h3 & -> & Hk23 & Hk3 & Hi3 & Hv3 & Hn3 & He3);
    [|done..].
  apply bind_Ok_inv in Hrun as (a' & w4 & Ha' & Hrun).
  apply (or_empty_step h0) in Ha' as (h4 & -> & Hk34 & Hk4 & Hi4 & Hv4 & Hn4 & He4);
    [|done..].
  cbn in Hk12, Hk23, Hk34, He2, He4.
  (* the client *)
  apply bind_Ok_inv in Hrun as (fs & w5 & Hfs & Hrun).
  apply S3FileSystem_new_spec in Hfs as (-> & Hck & la' & -> & Hkw).
  cbn in Hkw.
  (* the option dictionaries *)
  apply bind_Ok_inv in Hrun as (lla & w6 & Hla & Hrun).
  injection Hla as <- <-.
  apply bind_Ok_inv in Hrun as ([] & w7 & Hupd1 & Hrun).
  eapply opt_update_spec in Hupd1 as (d_la & -> & Hd_la); [|apply lookup_insert_eq].
  cbn in Hd_la.
  apply bind_Ok_inv in Hrun as (lsa & w8 & Hsa & Hrun).
  injection Hsa as <- <-.
  apply bind_Ok_inv in Hrun as ([] & w9 & Hupd2 & Hrun).
  eapply opt_update_spec in Hupd2 as (d_sa & -> & Hd_sa); [|apply lookup_insert_eq].
  cbn in Hd_sa.
  injection Hrun as <- <-. cbn.
  set (lla := fresh (dom h4)) in *.
  rewrite !insert_insert_eq. rewrite !insert_insert_eq in Hd_sa.
  assert (Hlla : lla ∉ dom h4) by apply is_fresh.
  pose proof (keeps_dom _ _ Hk4) as Hsub4.
  exists h4, fs, d_la, d_sa. cbn zeta. fold lla.
  set (lsa := fresh (dom (<[lla:=d_la]> h4))) in *.
  assert (Hlsa : lsa ∉ dom (<[lla:=d_la]> h4)) by apply is_fresh.
  pose proof (keeps_dom _ _ Hk23) as Hsub23.
  pose proof (keeps_dom _ _ Hk34) as Hsub34.
  split_and!; try done.
  - rewrite Hck. eapply val_new_mono; [|exact Hv2]. set_solver.
  - intros k x Hx. eapply (Hi4 la'); [|exact Hkw|exact Hx]. exact Hv4.
  - intros ->. destruct (Hn2 (Hn1 eq_refl)) as (l0 & -> & Hl0).
    exists l0. split; [done|].
    assert (Hin : l0 ∈ dom h2) by (apply elem_of_dom; by rewrite Hl0).
    rewrite Hk34; [by rewrite Hk23 | by apply (keeps_dom _ _ Hk23)].
  - intros ->. destruct (Hn4 (Hn3 eq_refl)) as (l & [= <-] & Hl).
    rewrite Hl in Hkw. by injection Hkw.
  - destruct load_args as [| | | |lo]; simpl in *; try done; [by subst|].
    intros Hlo. destruct Hd_la as (o & Ho & ->). exists o. split; [|done].
    rewrite lookup_insert_ne in Ho by (intros ->; set_solver).
    by rewrite <- (Hk4 _ Hlo).
  - destruct save_args as [| | | |lo]; simpl in *; try done; [by subst|].
    intros Hlo. destruct Hd_sa as (o & Ho & ->). exists o. split; [|done].
    assert (lo ∈ dom h4) by set_solver.
    rewrite lookup_insert_ne in Ho by (intros ->; rewrite dom_insert_L in Hlsa; set_solver).
    rewrite lookup_insert_ne in Ho by (intros ->; set_solver).
    by rewrite <- (Hk4 _ Hlo).
  - intros Hcl l -> Hl n. rewrite Hck.
    eapply deep_eq_keeps_r; [exact Hk34|].
    eapply deep_eq_keeps_r; [exact Hk23|].
    apply He2. intros n'. by apply He1.
  - intros Hcl l -> Hl. exists la'. split; [done|].
    apply He4. intros n'. by apply He3.
Qed.

Lemma or_empty_dict_total v w : ∃ v' w', or_empty_dict v w = (Ok v', w').
Proof.
  unfold or_empty_dict. rewrite bind_read.
  destruct (truthy (dicts w) v); eexists _, _; reflexivity.
Qed.

Lemma mapping_or_none_live h v : mapping_or_none h v → live h v.
Proof. intros [->|(l & -> & Hl)]; simpl; done. Qed.

(** The constructor returns: with a closed heap, mapping arguments that are
    [None] or dictionaries, no [client_kwargs] among the client options, a
    warning that is not turned into an error and a client that can be
    built, [__init__] yields an instance. *)
Lemma init_returns filepath key bucket_name credentials load_args save_args
    version s3fs_args w :
  closed (dicts w) →
  mapping_or_none (dicts w) credentials →
  mapping_or_none (dicts w) s3fs_args →
  mapping_or_none (dicts w) load_args →
  mapping_or_none (dicts w) save_args →
  (∀ l d, s3fs_args = VRef l → dicts w !! l = Some d → d !! "client_kwargs" = None) →
  deprecation_warning "HDFS3DataSet" = Ok tt →
  (∀ h c kw, s3_init_fault h c kw = None) →
  ∃ self w',
    __init__ filepath key bucket_name credentials load_args save_args version
      s3fs_args w = (Ok self, w').
Proof.
  intros Hcl Hcred Hs3 Hla Hsa Hck Hwarn Hfault.
  set (h0 := dicts w) in *.
  unfold __init__. rewrite bind_tell.
  rewrite (bind_lift_Ok _ _ _ _ Hwarn).
  (* credentials *)
  destruct (deepcopy_total credentials (log (Warned "HDFS3DataSet") w))
    as (c & w1 & Hc); [done | by apply mapping_or_none_live |].
  rewrite (bind_Ok _ _ _ _ _ Hc).
  apply (deepcopy_step h0) in Hc as (h1 & -> & _ & Hk1 & Hi1 & Hv1 & _);
    [|apply keeps_refl|apply isolated_refl].
  destruct (or_empty_dict_total c (set_dicts h1 (log (Warned "HDFS3DataSet") w)))
    as (c' & w2 & Hc').
  rewrite (bind_Ok _ _ _ _ _ Hc').
  apply (or_empty_step h0) in Hc' as (h2 & -> & _ & Hk2 & Hi2 & Hv2 & _);
    [|done..].
  (* s3fs_args *)
  match goal with |- ∃ _ _, bind (deepcopy _) _ ?w0 = _ =>
    destruct (deepcopy_total s3fs_args w0) as (a & w3 & Ha);
      [by eapply closed_extend
      |eapply live_keeps; [exact Hk2|]; by apply mapping_or_none_live
      |];
    rewrite (bind_Ok _ _ _ _ _ Ha) end.
  apply (deepcopy_step h0) in Ha as (h3 & -> & _ & Hk3 & Hi3 & Hv3 & Hn3 & He3);
    [|done..].
  match goal with |- ∃ _ _, bind (or_empty_dict _) _ ?w0 = _ =>
    destruct (or_empty_dict_total a w0) as (a' & w4 & Ha');
    rewrite (bind_Ok _ _ _ _ _ Ha') end.
  pose proof Ha' as Ha''.
  apply (or_empty_step h0) in Ha' as (h4 & -> & _ & Hk4 & Hi4 & Hv4 & Hn4 & He4);
    [|done..].
  cbn in He4.
  (* the client: its options are a dictionary without [client_kwargs] *)
  assert (Hkw : ∃ la kw, a' = VRef la ∧ h4 !! la = Some kw ∧ kw !! "client_kwargs" = None).
  { destruct Hs3 as [->|(l & -> & [d Hd])].
    - destruct (Hn4 (Hn3 eq_refl)) as (la & -> & Hla').
      exists la, ∅. by rewrite lookup_empty.
    - assert (Heq : ∀ n, deep_eq n h0 (VRef l) h4 a').
      { apply He4. intros n. apply He3; [done|]. simpl. by rewrite Hd. }
      destruct (Heq 1) as (la & d1 & kw & -> & Hd1 & Hkw & Hall).
      rewrite Hd in Hd1. injection Hd1 as <-.
      exists la, kw. split_and!; [done..|].
      specialize (Hall "client_kwargs"). rewrite (Hck l d eq_refl Hd) in Hall.
      by inversion Hall. }
  destruct Hkw as (la & kw & -> & Hkw & Hnone).
  assert (Hs3new : ∀ w0, dicts w0 = h4 →
            S3FileSystem_new c' (VRef la) w0
            = (Ok {| client_kwargs := c'; s3_kwargs := kw |}, log S3Init w0)).
  { intros w0 Hw0. unfold S3FileSystem_new.
    rewrite (bind_eq _ _ _ _ _ (as_mapping_eq _ _ _)), Hw0, Hkw.
    unfold check_keywords. simpl List.find.
    rewrite bool_decide_eq_false_2 by (rewrite Hnone; by intros [? ?]).
    rewrite (bind_lift_Ok _ _ _ tt eq_refl), bind_tell, bind_read.
    by rewrite Hfault. }
  match goal with |- ∃ _ _, bind _ _ ?w0 = _ =>
    rewrite (bind_Ok _ _ w0 _ _ (Hs3new w0 eq_refl)) end.
  (* the option dictionaries *)
  assert (Hupd : ∀ arg l w0, mapping_or_none h0 arg → keeps h0 (dicts w0) → l ∉ dom h0 →
            ∃ h', (match arg with VNone => ret tt | _ => dict_update l arg end) w0
                  = (Ok tt, set_dicts h' w0) ∧ keeps h0 h').
  { intros arg l w0 [->|(lo & -> & [d Hd])] Hk0 Hl.
    - exists (dicts w0). split; [by destruct w0 | done].
    - unfold dict_update.
      rewrite (bind_eq _ _ _ _ _ (as_mapping_eq _ _ _)).
      rewrite Hk0 by (apply elem_of_dom; eauto). rewrite Hd.
      eexists. split; [reflexivity|]. simpl.
      intros x Hx. rewrite lookup_alter_ne; [by apply Hk0|]. intros ->. done. }
  unfold bind at 1. unfold new_dict at 1. cbn [dicts set_dicts log].
  set (lla := fresh (dom h4)).
  assert (Hlla : lla ∉ dom h4) by apply is_fresh.
  pose proof (keeps_dom _ _ Hk4) as Hsub4.
  match goal with |- ∃ _ _, bind _ _ ?w0 = _ =>
    destruct (Hupd load_args lla w0 Hla) as (h6 & Hu1 & Hk6);
      [cbn; eapply keeps_trans; [exact Hk4 | by apply keeps_alloc] | set_solver |];
    rewrite (bind_Ok _ _ _ _ _ Hu1) end.
  unfold bind at 1. unfold new_dict at 1. cbn [dicts set_dicts log].
  set (lsa := fresh (dom h6)).
  assert (Hlsa : lsa ∉ dom h6) by apply is_fresh.
  pose proof (keeps_dom _ _ Hk6) as Hsub6.
  match goal with |- ∃ _ _, bind _ _ ?w0 = _ =>
    destruct (Hupd save_args lsa w0 Hsa) as (h8 & Hu2 & Hk8);
      [cbn; eapply keeps_trans; [exact Hk6 | by apply keeps_alloc] | set_solver |];
    rewrite (bind_Ok _ _ _ _ _ Hu2) end.
  eexists _, _. reflexivity.
Qed.

End Construction.

(** ** Paths *)

Lemma split_on_nonempty sep s : split_on sep s ≠ [].
Proof.
  destruct s as [|c s]; simpl; [done|].
  destruct (Ascii.eqb c sep); [done|]. by destruct (split_on sep s).
Qed.

Lemma join_split_on s : join "/" (split_on "/" s) = s.
Proof.
  induction s as [|c s IH]; [done|]. simpl.
  destruct (Ascii.eqb c "/") eqn:Hc.
  - apply Ascii.eqb_eq in Hc as ->.
    pose proof (split_on_nonempty "/" s) as Hne.
    destruct (split_on "/" s) as [|w ws]; [done|].
    change (join "/" ("" :: w :: ws)) with ("" +:+ "/" +:+ join "/" (w :: ws)).
    by rewrite IH.
  - destruct (split_on "/" s) as [|w ws] eqn:Hs.
    + by destruct (split_on_nonempty "/" s).
    + destruct ws as [|w' ws]; simpl in *; by rewrite <- IH.
Qed.

Lemma filter_all {A} (p : A → bool) l : forallb p l = true → List.filter p l = l.
Proof.
  induction l as [|a l IH]; simpl; [done|].
  intros [Ha Hl]%andb_true_iff. rewrite Ha. by rewrite IH.
Qed.

Lemma str_parse_normal s : normal s = true → str (parse s) = s.
Proof.
  unfold normal. intros [Hl Hp]%andb_true_iff. apply Nat.eqb_eq in Hl.
  unfold parse, str, splitroot. simpl. rewrite Hl, (filter_all _ _ Hp).
  pose proof (split_on_nonempty "/" s) as Hne.
  pose proof (join_split_on s) as Hj.
  destruct (split_on "/" s); [done|]. exact Hj.
Qed.

(** ** Claims about the constructor *)

Lemma updated_with_merged (h : heap) dflt arg d :
  live h arg → updated_with h dflt arg (Some d) → merged h dflt arg d.
Proof.
  destruct arg as [| | | |l]; simpl; try done.
  - by intros _ [= ->].
  - intros Hl%elem_of_dom Hu. destruct (Hu Hl) as (u & Hu1 & [= ->]).
    exists u. split_and!; [done | |].
    + intros k v Hk. by apply lookup_union_Some_l.
    + intros k Hk. by apply lookup_union_r.
Qed.

(** C4.  Construction stores the path [PurePosixPath("<bucket>/<stripped>")]
    when a non-empty bucket name is given and [PurePosixPath("<stripped>")]
    when none is, where <stripped> is what the client's [_strip_protocol]
    makes of the file path; for a string already in normal form the stored
    path prints as that very string. *)
Theorem init_stores_bucket_path {SC : StorageClient} {KC : KedroCore}
    filepath key bucket_name credentials load_args save_args version s3fs_args
    w self w' :
  __init__ filepath key bucket_name credentials load_args save_args version
    s3fs_args w = (Ok self, w') →
  ∃ ds, insts w' !! self = Some ds ∧
    match bucket_name with
    | Some b =>
        b ≠ "" →
        _filepath ds = parse (b +:+ "/" +:+ _strip_protocol filepath) ∧
        (normal (b +:+ "/" +:+ _strip_protocol filepath) = true →
         str (_filepath ds) = b +:+ "/" +:+ _strip_protocol filepath)
    | None =>
        _filepath ds = parse (_strip_protocol filepath) ∧
        (normal (_strip_protocol filepath) = true →
         str (_filepath ds) = _strip_protocol filepath)
    end.
Proof.
  intros Hrun.
  apply init_inv in Hrun
    as (h5 & fs & d_la & d_sa & _ & _ & _ & _ & _ & _ & _ & _ & _ & _ & Hi & _).
  eexists. split; [rewrite Hi; apply lookup_insert_eq|]. simpl.
  unfold init_path. destruct bucket_name as [b|].
  - intros Hb. apply String.eqb_neq in Hb. rewrite Hb. simpl.
    split; [done|]. apply str_parse_normal.
  - split; [done|]. apply str_parse_normal.
Qed.

(** C6.  The constructor stores, for the load and for the save options, the
    defaults updated with the caller's mapping: a key of the caller's mapping
    has the caller's value, any other key has its default, and [None] leaves
    exactly the defaults. *)
Theorem init_merges_options {SC : StorageClient} {KC : KedroCore}
    filepath key bucket_name credentials load_args save_args version s3fs_args
    w self w' :
  live (dicts w) load_args → live (dicts w) save_args →
  __init__ filepath key bucket_name credentials load_args save_args version
    s3fs_args w = (Ok self, w') →
  ∃ ds d_load d_save,
    insts w' !! self = Some ds ∧
    dicts w' !! _load_args ds = Some d_load ∧
    dicts w' !! _save_args ds = Some d_save ∧
    merged (dicts w) DEFAULT_LOAD_ARGS load_args d_load ∧
    merged (dicts w) DEFAULT_SAVE_ARGS save_args d_save.
Proof.
  intros Hla Hsa Hrun.
  apply init_inv in Hrun
    as (h5 & fs & d_la & d_sa & _ & _ & _ & _ & _ & _ & Hd & Hu1 & Hu2 & _ & Hi & _).
  cbn zeta in Hd, Hi.
  set (lla := fresh (dom h5)) in *.
  set (lsa := fresh (dom (<[lla:=d_la]> h5))) in *.
  assert (Hne : lsa ≠ lla).
  { intros Heq. pose proof (is_fresh (dom (<[lla:=d_la]> h5))) as Hf.
    fold lsa in Hf. rewrite Heq, dom_insert_L in Hf. set_solver. }
  eexists _, d_la, d_sa.
  split_and!; [rewrite Hi; apply lookup_insert_eq | | | |]; simpl.
  - rewrite Hd. rewrite lookup_insert_ne by done. apply lookup_insert_eq.
  - rewrite Hd. apply lookup_insert_eq.
  - by apply updated_with_merged.
  - by apply updated_with_merged.
Qed.

(** ** The four operations, step by step *)

Lemma dicts_log ev w : dicts (log ev w) = dicts w.
Proof. reflexivity. Qed.
Lemma insts_log ev w : insts (log ev w) = insts w.
Proof. reflexivity. Qed.
Lemma remote_log ev w : remote (log ev w) = remote w.
Proof. reflexivity. Qed.
Lemma clock_log ev w : clock (log ev w) = clock w.
Proof. reflexivity. Qed.
Lemma calls_log ev w : calls (log ev w) = (calls w ++ [ev])%list.
Proof. reflexivity. Qed.
Lemma dicts_set_remote r w : dicts (set_remote r w) = dicts w.
Proof. reflexivity. Qed.
Lemma insts_set_remote r w : insts (set_remote r w) = insts w.
Proof. reflexivity. Qed.
Lemma remote_set_remote r w : remote (set_remote r w) = r.
Proof. reflexivity. Qed.
Lemma clock_set_remote r w : clock (set_remote r w) = clock w.
Proof. reflexivity. Qed.
Lemma calls_set_remote r w : calls (set_remote r w) = calls w.
Proof. reflexivity. Qed.

Create Rewrite HintDb world.
#[local] Hint Rewrite dicts_log insts_log remote_log clock_log calls_log
  dicts_set_remote insts_set_remote remote_set_remote clock_set_remote
  calls_set_remote : world.

Section Operations.
Context {SC : StorageClient} {TL : TableFileLibrary} {KC : KedroCore}.

Lemma get_self_eq self w :
  get_self self w =
  (match insts w !! self with
   | Some ds => Ok ds
   | None => Raise (TypeError "not an HDFS3DataSet")
   end, w).
Proof. unfold get_self. rewrite bind_read. by destruct (insts w !! self). Qed.

Lemma resolve_load_path_eq ds w :
  resolve_load_path ds w = (_get_load_path ds w, log ResolveLoad w).
Proof. reflexivity. Qed.

Lemma resolve_save_path_eq ds w :
  resolve_save_path ds w = (_get_save_path ds w, log ResolveSave w).
Proof. reflexivity. Qed.

Lemma s3_isfile_eq fs path w :
  s3_isfile fs path w =
  (match s3_fault (dicts w) fs (CallIsfile path) with
   | Some e => Raise e
   | None => Ok (bool_decide (is_Some (remote w !! path)))
   end, log (S3Isfile path) w).
Proof.
  unfold s3_isfile. rewrite bind_tell, bind_read, dicts_log.
  by destruct (s3_fault _ _ _).
Qed.

Lemma s3_open_read_eq fs path w :
  s3_open_read fs path w =
  (match s3_fault (dicts w) fs (CallOpenRead path) with
   | Some e => Raise e
   | None => match remote w !! path with
             | Some b => Ok b
             | None => Raise (FileNotFoundError path)
             end
   end, log (S3Read path) w).
Proof.
  unfold s3_open_read. rewrite bind_tell, bind_read, dicts_log.
  destruct (s3_fault _ _ _); [done|]. rewrite bind_read, remote_log.
  by destruct (remote w !! path).
Qed.

Lemma s3_open_write_eq fs path data w :
  s3_open_write fs path data w =
  match s3_fault (dicts w) fs (CallOpenWrite path) with
  | Some e => (Raise e, log (S3Write path) w)
  | None => (Ok tt, set_remote (<[path:=data]> (remote w)) (log (S3Write path) w))
  end.
Proof.
  unfold s3_open_write. rewrite bind_tell, bind_read, dicts_log.
  by destruct (s3_fault _ _ _).
Qed.

(** What [_exists] computes, call by call. *)
Lemma _exists_eq self w :
  _exists self w =
  match insts w !! self with
  | None => (Raise (TypeError "not an HDFS3DataSet"), w)
  | Some ds =>
      let w1 := log ResolveLoad w in
      match _get_load_path ds w with
      | Raise e => (Raise e, w1)
      | Ok p =>
          let w2 := log (S3Isfile (str p)) w1 in
          match s3_fault (dicts w) (_s3 ds) (CallIsfile (str p)) with
          | Some e => (Raise e, w2)
          | None =>
              match remote w !! str p with
              | None => (Ok false, w2)
              | Some b =>
                  let w3 := log (S3Read (str p)) w2 in
                  match s3_fault (dicts w) (_s3 ds) (CallOpenRead (str p)) with
                  | Some e => (Raise e, w3)
                  | None =>
                      match dicts w !! _load_args ds with
                      | None => (Raise (TypeError "argument after ** must be a mapping"), w3)
                      | Some kwargs =>
                          let w4 := log (HdfOpen "r") w3 in
                          match pd_HDFStore (dicts w) (str (_filepath ds)) "r"
                                  HDFSTORE_DRIVER 0 (Some b) kwargs with
                          | Raise e => (Raise e, w4)
                          | Ok store =>
                              (Ok (bool_decide (key_with_slash (_key ds) ∈ store_keys store)),
                               log HdfKeys w4)
                          end
                      end
                  end
              end
          end
      end
  end.
Proof.
  unfold _exists. rewrite (bind_eq _ _ _ _ _ (get_self_eq self w)).
  destruct (insts w !! self) as [ds|]; [|done].
  rewrite (bind_eq _ _ _ _ _ (resolve_load_path_eq ds w)).
  destruct (_get_load_path ds w) as [p|e]; [|done]. cbn zeta.
  rewrite (bind_eq _ _ _ _ _ (s3_isfile_eq _ _ _)). autorewrite with world.
  destruct (s3_fault _ _ (CallIsfile _)); [done|].
  destruct (remote w !! str p) as [b|] eqn:Hb; simpl bool_decide; cbn iota.
  2:{ rewrite bool_decide_eq_false_2; [done|]. by intros [? ?]. }
  rewrite bool_decide_eq_true_2 by eauto.
  rewrite (bind_eq _ _ _ _ _ (s3_open_read_eq _ _ _)). autorewrite with world.
  destruct (s3_fault _ _ (CallOpenRead _)); [done|]. rewrite Hb.
  unfold unpack. rewrite (bind_eq _ _ _ _ _ (as_mapping_eq _ _ _)).
  autorewrite with world.
  destruct (dicts w !! _load_args ds) as [kwargs|]; [|done].
  rewrite bind_tell, bind_read. autorewrite with world.
  unfold bind, lift. by destruct (pd_HDFStore _ _ _ _ _ _ _).
Qed.

(** What [_load] computes, call by call. *)
Lemma _load_eq self w :
  _load self w =
  match insts w !! self with
  | None => (Raise (TypeError "not an HDFS3DataSet"), w)
  | Some ds =>
      let w1 := log ResolveLoad w in
      match _get_load_path ds w with
      | Raise e => (Raise e, w1)
      | Ok p =>
          let w2 := log (S3Read (str p)) w1 in
          match s3_fault (dicts w) (_s3 ds) (CallOpenRead (str p)) with
          | Some e => (Raise e, w2)
          | None =>
              match remote w !! str p with
              | None => (Raise (FileNotFoundError (str p)), w2)
              | Some b =>
                  match dicts w !! _load_args ds with
                  | None => (Raise (TypeError "argument after ** must be a mapping"), w2)
                  | Some kwargs =>
                      let w3 := log (HdfOpen "r") w2 in
                      match pd_HDFStore (dicts w) (str (_filepath ds)) "r"
                              HDFSTORE_DRIVER 0 (Some b) kwargs with
                      | Raise e => (Raise e, w3)
                      | Ok store =>
                          (store_getitem store (_key ds), log (HdfGet (_key ds)) w3)
                      end
                  end
              end
          end
      end
  end.
Proof.
  unfold _load. rewrite (bind_eq _ _ _ _ _ (get_self_eq self w)).
  destruct (insts w !! self) as [ds|]; [|done].
  rewrite (bind_eq _ _ _ _ _ (resolve_load_path_eq ds w)).
  destruct (_get_load_path ds w) as [p|e]; [|done]. cbn zeta.
  rewrite (bind_eq _ _ _ _ _ (s3_open_read_eq _ _ _)). autorewrite with world.
  destruct (s3_fault _ _ _); [done|].
  destruct (remote w !! str p) as [b|]; [|done].
  unfold unpack. rewrite (bind_eq _ _ _ _ _ (as_mapping_eq _ _ _)).
  autorewrite with world.
  destruct (dicts w !! _load_args ds) as [kwargs|]; [|done].
  rewrite bind_tell, bind_read. autorewrite with world.
  unfold bind, lift. by destruct (pd_HDFStore _ _ _ _ _ _ _).
Qed.

(** What [_save] computes, call by call. *)
Lemma _save_eq self data w :
  _save self data w =
  match insts w !! self with
  | None => (Raise (TypeError "not an HDFS3DataSet"), w)
  | Some ds =>
      let w1 := log ResolveSave w in
      match _get_save_path ds w with
      | Raise e => (Raise e, w1)
      | Ok p =>
          match dicts w !! _save_args ds with
          | None => (Raise (TypeError "argument after ** must be a mapping"), w1)
          | Some kwargs =>
              let w2 := log (HdfOpen "w") w1 in
              match pd_HDFStore (dicts w) (str (_filepath ds)) "w"
                      HDFSTORE_DRIVER 0 None kwargs with
              | Raise e => (Raise e, w2)
              | Ok store0 =>
                  let w3 := log (HdfPut (_key ds)) w2 in
                  match store_put store0 (_key ds) data "table" with
                  | Raise e => (Raise e, w3)
                  | Ok store1 =>
                      let w4 := log HdfImage w3 in
                      match get_file_image store1 with
                      | Raise e => (Raise e, w4)
                      | Ok binary_data =>
                          let w5 := log (S3Write (str p)) w4 in
                          match s3_fault (dicts w) (_s3 ds) (CallOpenWrite (str p)) with
                          | Some e => (Raise e, w5)
                          | None =>
                              (Ok tt, set_remote (<[str p:=binary_data]> (remote w)) w5)
                          end
                      end
                  end
              end
          end
      end
  end.
Proof.
  unfold _save. rewrite (bind_eq _ _ _ _ _ (get_self_eq self w)).
  destruct (insts w !! self) as [ds|]; [|done].
  rewrite (bind_eq _ _ _ _ _ (resolve_save_path_eq ds w)).
  destruct (_get_save_path ds w) as [p|e]; [|done]. cbn zeta.
  unfold unpack. rewrite (bind_eq _ _ _ _ _ (as_mapping_eq _ _ _)).
  autorewrite with world.
  destruct (dicts w !! _save_args ds) as [kwargs|]; [|done].
  rewrite bind_tell, bind_read. autorewrite with world.
  unfold bind at 1. unfold lift at 1.
  destruct (pd_HDFStore _ _ _ _ _ _ _) as [store0|e]; [|done].
  rewrite bind_tell. unfold bind at 1. unfold lift at 1.
  destruct (store_put _ _ _ _) as [store1|e]; [|done].
  rewrite bind_tell. unfold bind at 1. unfold lift at 1.
  destruct (get_file_image _) as [binary_data|e]; [|done].
  rewrite s3_open_write_eq. autorewrite with world. done.
Qed.

Lemma save_frame self data w u w' :
  _save self data w = (u, w') → dicts w' = dicts w ∧ insts w' = insts w.
Proof.
  rewrite _save_eq. intros Hrun.
  repeat case_match; cbn zeta in Hrun; simplify_eq; done.
Qed.

(** A save that returned went through every step: the library opened a
    store, took the table and gave an image, and that image is what the
    bucket holds at the save path. *)
Lemma save_Ok_inv self ds data w u w' p kwargs :
  insts w !! self = Some ds →
  _get_save_path ds w = Ok p →
  dicts w !! _save_args ds = Some kwargs →
  _save self data w = (Ok u, w') →
  ∃ store0 store1 img,
    hdf_open (dicts w) (str (_filepath ds)) "w" HDFSTORE_DRIVER 0 None kwargs
      = Ok store0 ∧
    store_put store0 (_key ds) data "table" = Ok store1 ∧
    get_file_image store1 = Ok img ∧
    remote w' = <[str p:=img]> (remote w).
Proof.
  intros Hself Hp Hkw. rewrite _save_eq, Hself, Hp, Hkw. cbn zeta.
  destruct (pd_HDFStore _ _ _ _ _ _ _) as [store0|e] eqn:Hopen; [|discriminate].
  apply pd_HDFStore_Ok in Hopen as [Hopen _].
  destruct (store_put _ _ _ _) as [store1|e] eqn:Hput; [|discriminate].
  destruct (get_file_image _) as [img|e] eqn:Himg; [|discriminate].
  destruct (s3_fault _ _ _); [discriminate|].
  intros [= <- <-]. by exists store0, store1, img.
Qed.

Lemma _describe_eq self w :
  _describe self w =
  match insts w !! self with
  | None => (Raise (TypeError "not an HDFS3DataSet"), w)
  | Some ds =>
      (Ok (<["filepath" := DPath (_filepath ds)]>
           (<["key" := DStr (_key ds)]>
            (<["load_args" := DDict (_load_args ds)]>
             (<["save_args" := DDict (_save_args ds)]>
              (<["version" := DVersion (_version ds)]> ∅))))), w)
  end.
Proof.
  unfold _describe. rewrite (bind_eq _ _ _ _ _ (get_self_eq self w)).
  by destruct (insts w !! self).
Qed.

End Operations.

(** ** Claims about the operations *)

Section OperationClaims.
Context {SC : StorageClient} {TL : TableFileLibrary} {KC : KedroCore}.

(** C2.  [exists()] is false when the bucket holds no object at the resolved
    load path; otherwise it reads the object, opens its bytes as a store in
    mode "r", and is true exactly when the key, with "/" put in front unless
    it starts with one, is among the store's keys. *)
Theorem exists_looks_up_normalised_key self ds w p :
  insts w !! self = Some ds →
  _get_load_path ds w = Ok p →
  s3_fault (dicts w) (_s3 ds) (CallIsfile (str p)) = None →
  (remote w !! str p = None → (_exists self w).1 = Ok false) ∧
  (∀ b kwargs store,
     remote w !! str p = Some b →
     s3_fault (dicts w) (_s3 ds) (CallOpenRead (str p)) = None →
     dicts w !! _load_args ds = Some kwargs →
     pd_HDFStore (dicts w) (str (_filepath ds)) "r" HDFSTORE_DRIVER 0 (Some b) kwargs
       = Ok store →
     ∃ r, (_exists self w).1 = Ok r ∧
          (r = true ↔ key_with_slash (_key ds) ∈ store_keys store) ∧
          calls (_exists self w).2 =
            (calls w ++ [ResolveLoad; S3Isfile (str p); S3Read (str p);
                         HdfOpen "r"; HdfKeys])%list) ∧
  startswith_slash (key_with_slash (_key ds)) = true ∧
  (startswith_slash (_key ds) = true → key_with_slash (_key ds) = _key ds) ∧
  (startswith_slash (_key ds) = false → key_with_slash (_key ds) = "/" +:+ _key ds).
Proof.
  intros Hself Hp Hf. rewrite _exists_eq, Hself, Hp. cbn zeta. rewrite Hf.
  split_and!.
  - by intros ->.
  - intros b kwargs store -> -> -> ->. eexists. split; [done|]. split.
    + apply bool_decide_eq_true.
    + simpl. rewrite <- !app_assoc. done.
  - unfold key_with_slash. by destruct (startswith_slash (_key ds)) eqn:E.
  - unfold key_with_slash. by intros ->.
  - unfold key_with_slash. by intros ->.
Qed.

(** C7.  [load()] fails with what the versioning helper raises when no path
    can be resolved, with what the client raises when the object cannot be
    read, with what the table library raises when the bytes cannot be opened
    or the key is not in the store; every such error is the result as it
    was raised, and no collaborator is called again after it. *)
Theorem load_passes_errors_through self ds w :
  insts w !! self = Some ds →
  (∀ e, _get_load_path ds w = Raise e →
        _load self w = (Raise e, log ResolveLoad w)) ∧
  (∀ p, _get_load_path ds w = Ok p →
     let w2 := log (S3Read (str p)) (log ResolveLoad w) in
     (∀ e, s3_fault (dicts w) (_s3 ds) (CallOpenRead (str p)) = Some e →
           _load self w = (Raise e, w2)) ∧
     (s3_fault (dicts w) (_s3 ds) (CallOpenRead (str p)) = None →
      remote w !! str p = None →
      _load self w = (Raise (FileNotFoundError (str p)), w2)) ∧
     (∀ b kwargs,
        s3_fault (dicts w) (_s3 ds) (CallOpenRead (str p)) = None →
        remote w !! str p = Some b →
        dicts w !! _load_args ds = Some kwargs →
        let w3 := log (HdfOpen "r") w2 in
        (∀ e, pd_HDFStore (dicts w) (str (_filepath ds)) "r" HDFSTORE_DRIVER 0
                (Some b) kwargs = Raise e →
              _load self w = (Raise e, w3)) ∧
        (∀ store, pd_HDFStore (dicts w) (str (_filepath ds)) "r" HDFSTORE_DRIVER 0
                    (Some b) kwargs = Ok store →
                  _load self w =
                  (store_getitem store (_key ds), log (HdfGet (_key ds)) w3)))).
Proof.
  intros Hself. rewrite _load_eq, Hself. split.
  - by intros e ->.
  - intros p ->. cbn zeta. split_and!.
    + by intros e ->.
    + by intros -> ->.
    + intros b kwargs -> -> ->. split; by intros ? ->.
Qed.

(** C9.  None of the four operations changes the Python heap or the
    instance table, whatever its outcome: the descriptor is what it was, and
    nothing else was created in the process. *)
Theorem operations_leave_descriptor self w :
  let unchanged (w' : world) :=
    dicts w' = dicts w ∧ insts w' = insts w ∧ descriptor self w' = descriptor self w in
  unchanged (_load self w).2 ∧
  (∀ data, unchanged (_save self data w).2) ∧
  unchanged (_exists self w).2 ∧
  unchanged (_describe self w).2.
Proof.
  assert (Hd : ∀ w', dicts w' = dicts w → insts w' = insts w →
                     descriptor self w' = descriptor self w).
  { intros w' Hd Hi. unfold descriptor. by rewrite Hd, Hi. }
  cbn zeta. refine (conj _ (conj _ (conj _ _))); [| intros data | |].
  - rewrite _load_eq. repeat case_match; cbn zeta; simpl; auto.
  - rewrite _save_eq. repeat case_match; cbn zeta; simpl; auto.
  - rewrite _exists_eq. repeat case_match; cbn zeta; simpl; auto.
  - rewrite _describe_eq. repeat case_match; simpl; auto.
Qed.

End OperationClaims.

(** C5.  [_describe] returns a mapping with the five keys [filepath], [key],
    [load_args], [save_args] and [version], bound to the attributes of these
    names, and nothing else; it is the same mapping for any data set with
    these five attributes, whatever its client (credentials, client options)
    is; the world is left as it was, with no collaborator called. *)
Theorem describe_five_fields self ds w :
  insts w !! self = Some ds →
  ∃ m, _describe self w = (Ok m, w) ∧
    dom m = ({["filepath"; "key"; "load_args"; "save_args"; "version"]} : gset string) ∧
    m !! "filepath" = Some (DPath (_filepath ds)) ∧
    m !! "key" = Some (DStr (_key ds)) ∧
    m !! "load_args" = Some (DDict (_load_args ds)) ∧
    m !! "save_args" = Some (DDict (_save_args ds)) ∧
    m !! "version" = Some (DVersion (_version ds)) ∧
    (∀ w2 ds2,
       insts w2 !! self = Some ds2 →
       _filepath ds2 = _filepath ds → _key ds2 = _key ds →
       _load_args ds2 = _load_args ds → _save_args ds2 = _save_args ds →
       _version ds2 = _version ds →
       (_describe self w2).1 = Ok m).
Proof.
  intros Hself. rewrite _describe_eq, Hself. eexists. split; [done|].
  split_and!; try done.
  intros w2 ds2 Hself2 E1 E2 E3 E4 E5.
  by rewrite _describe_eq, Hself2, E1, E2, E3, E4, E5.
Qed.

Section SaveClaims.
Context {SC : StorageClient} {TL : TableFileLibrary} {KC : KedroCore}.

(** C8.  [save(data)] opens the store in mode "w", which the save options
    cannot override, and hands it no image: the bytes it writes are those of
    a store that went through that one [put], the same whatever the bucket
    held, and they replace the object at the save path; no other object is
    touched.  When a store opened in mode "w" starts without keys and [put]
    adds the one key, the store written holds that key only. *)
Theorem save_overwrites self ds w p kwargs data store0 store1 img :
  insts w !! self = Some ds →
  _get_save_path ds w = Ok p →
  dicts w !! _save_args ds = Some kwargs →
  pd_HDFStore (dicts w) (str (_filepath ds)) "w" HDFSTORE_DRIVER 0 None kwargs
    = Ok store0 →
  store_put store0 (_key ds) data "table" = Ok store1 →
  get_file_image store1 = Ok img →
  s3_fault (dicts w) (_s3 ds) (CallOpenWrite (str p)) = None →
  (_save self data w).1 = Ok tt ∧
  hdf_open (dicts w) (str (_filepath ds)) "w" HDFSTORE_DRIVER 0 None kwargs = Ok store0 ∧
  kwargs !! "mode" = None ∧
  remote (_save self data w).2 = <[str p:=img]> (remote w) ∧
  (∀ w2, dicts w2 = dicts w → insts w2 = insts w → _get_save_path ds w2 = Ok p →
         (_save self data w2).1 = Ok tt ∧
         remote (_save self data w2).2 !! str p = Some img ∧
         ∀ q, q ≠ str p → remote (_save self data w2).2 !! q = remote w2 !! q) ∧
  (store_keys store0 = [] →
   (∀ x, x ∈ store_keys store1 ↔ x ∈ store_keys store0 ∨ x = key_with_slash (_key ds)) →
   ∀ x, x ∈ store_keys store1 ↔ x = key_with_slash (_key ds)).
Proof.
  intros Hself Hp Hkw Hopen Hput Himg Hf.
  destruct (pd_HDFStore_Ok _ _ _ _ _ _ _ _ Hopen) as (Hlib & Hmode & _).
  rewrite _save_eq, Hself, Hp, Hkw, Hopen. cbn zeta. rewrite Hput, Himg, Hf.
  split_and!; [done | done | done | done | |].
  - intros w2 Hd Hi Hp2. rewrite _save_eq, Hi, Hself, Hp2, Hd, Hkw, Hopen.
    cbn zeta. rewrite Hput, Himg, Hf. simpl.
    split_and!; [done | apply lookup_insert_eq |].
    intros q Hq. by rewrite lookup_insert_ne.
  - intros Hk0 Hk x. rewrite Hk, Hk0. set_solver.
Qed.


(** C1 (as amended).  After a [save(data)] that completed, [load()] returns
    [data] when it resolves to the path the save wrote to, the load options
    repeat no keyword [load()] passes itself, the client reads without error
    and the table library opens the image it made and gives back, under the
    key, the table it was given. *)
Theorem load_after_save self ds w p data w' save_kwargs load_kwargs :
  insts w !! self = Some ds →
  _save self data w = (Ok tt, w') →
  _get_save_path ds w = Ok p →
  _get_load_path ds w' = Ok p →
  dicts w !! _save_args ds = Some save_kwargs →
  dicts w !! _load_args ds = Some load_kwargs →
  (∀ k, k ∈ load_keywords → load_kwargs !! k = None) →
  s3_fault (dicts w) (_s3 ds) (CallOpenRead (str p)) = None →
  image_opens (dicts w) (str (_filepath ds)) (_key ds) save_kwargs load_kwargs data
    (λ store, store_getitem store (_key ds) = Ok data) →
  (_load self w').1 = Ok data.
Proof.
  intros Hself Hsave Hp Hp' Hskw Hlkw Hfree Hfr Hlib.
  destruct (save_frame _ _ _ _ _ Hsave) as (Hd & Hi).
  destruct (save_Ok_inv _ _ _ _ _ _ _ _ Hself Hp Hskw Hsave)
    as (store0 & store1 & img & Hopen & Hput & Himg & Hr).
  destruct (Hlib store0 store1 img Hopen Hput Himg) as (store & Hread & Hget).
  rewrite _load_eq, Hi, Hself, Hp', Hd, Hfr, Hr, lookup_insert_eq, Hlkw.
  rewrite (pd_HDFStore_free _ _ _ _ _ (Some img)) by done. by rewrite Hread.
Qed.

End SaveClaims.

(** ** The client's configuration is the data set's own *)

Lemma reach_new h0 h h' l l' :
  isolated h0 h → (∀ x, new_in h0 h x → h' !! x = h !! x) →
  new_in h0 h l → reach h' l l' → new_in h0 h l'.
Proof.
  intros Hiso Hag Hl Hr. induction Hr as [l|l d k x l' Hd Hk _ IH]; [done|].
  apply IH. rewrite Hag in Hd by done.
  exact (Hiso _ _ _ _ Hl Hd Hk).
Qed.

Lemma reach_transfer h h' l l' :
  (∀ x, reach h l x → h' !! x = h !! x) → reach h l l' → reach h' l l'.
Proof.
  intros Hag Hr. induction Hr as [l|l d k x l' Hd Hk Hr IH]; [constructor|].
  eapply reach_step; [|exact Hk|].
  - rewrite Hag; [done|constructor].
  - apply IH. intros y Hy. apply Hag. by eapply reach_step.
Qed.

Lemma config_reach_new h0 h h' fs l :
  isolated h0 h → (∀ x, new_in h0 h x → h' !! x = h !! x) →
  val_new h0 h (client_kwargs fs) →
  (∀ k x, s3_kwargs fs !! k = Some x → val_new h0 h x) →
  config_reach h' fs l → new_in h0 h l.
Proof.
  intros Hiso Hag Hc Hk [(l0 & Hl0 & Hr)|(k & x & Hx & Hr)].
  - rewrite Hl0 in Hc. by eapply reach_new.
  - apply Hk in Hx. by eapply reach_new.
Qed.

Lemma config_reach_transfer h h' fs l :
  (∀ x, config_reach h fs x → h' !! x = h !! x) →
  config_reach h fs l → config_reach h' fs l.
Proof.
  intros Hag [(l0 & Hl0 & Hr)|(k & x & Hx & Hr)].
  - left. exists l0. split; [done|]. eapply reach_transfer; [|done].
    intros y Hy. apply Hag. left. eauto.
  - right. exists k, x. split; [done|]. eapply reach_transfer; [|done].
    intros y Hy. apply Hag. right. eauto.
Qed.

(** C10.  The constructor works on deep copies of [credentials] and
    [s3fs_args] ([None] standing for an empty mapping): every dictionary the
    caller had is left as it was; the client is configured with values equal
    to the caller's at every depth, held in objects made during construction
    only; and whatever the caller does to the earlier objects afterwards
    leaves that configuration, and with it the calls of a client that depends
    on nothing else, as they were. *)
Theorem init_copies_client_arguments {SC : StorageClient} {KC : KedroCore}
    filepath key bucket_name credentials load_args save_args version s3fs_args
    w self w' :
  __init__ filepath key bucket_name credentials load_args save_args version
    s3fs_args w = (Ok self, w') →
  keeps (dicts w) (dicts w') ∧
  ∃ ds, insts w' !! self = Some ds ∧
    (credentials = VNone →
     ∃ l0, client_kwargs (_s3 ds) = VRef l0 ∧ dicts w' !! l0 = Some ∅) ∧
    (s3fs_args = VNone → s3_kwargs (_s3 ds) = ∅) ∧
    (closed (dicts w) → ∀ l, credentials = VRef l → is_Some (dicts w !! l) →
     ∀ n, deep_eq n (dicts w) credentials (dicts w') (client_kwargs (_s3 ds))) ∧
    (closed (dicts w) → ∀ l d, s3fs_args = VRef l → dicts w !! l = Some d →
     ∀ n k, option_Forall2 (λ x x', deep_eq n (dicts w) x (dicts w') x')
              (d !! k) (s3_kwargs (_s3 ds) !! k)) ∧
    (∀ l, config_reach (dicts w') (_s3 ds) l → l ∉ dom (dicts w)) ∧
    (∀ h2,
       (∀ l, l ∈ dom (dicts w') → l ∉ dom (dicts w) → h2 !! l = dicts w' !! l) →
       (∀ l, config_reach h2 (_s3 ds) l ↔ config_reach (dicts w') (_s3 ds) l) ∧
       (∀ l, config_reach (dicts w') (_s3 ds) l → h2 !! l = dicts w' !! l) ∧
       (client_local →
        ∀ call, s3_fault h2 (_s3 ds) call = s3_fault (dicts w') (_s3 ds) call)).
Proof.
  intros Hrun.
  apply init_inv in Hrun
    as (h5 & fs & d_la & d_sa & Hk & Hiso & Hc & Hkw & Hn1 & Hn2 & Hd & _ & _ & _ & Hi
        & _ & _ & He1 & He2).
  cbn zeta in Hd, Hi.
  set (lla := fresh (dom h5)) in *.
  set (lsa := fresh (dom (<[lla:=d_la]> h5))) in *.
  assert (Hlla : lla ∉ dom h5) by apply is_fresh.
  assert (Hlsa : lsa ∉ dom (<[lla:=d_la]> h5)) by apply is_fresh.
  rewrite dom_insert_L in Hlsa.
  assert (Hk5 : keeps h5 (dicts w')).
  { rewrite Hd. intros x Hx.
    rewrite !lookup_insert_ne; [done | intros ->; set_solver | intros ->; set_solver]. }
  assert (Hag : ∀ x, new_in (dicts w) h5 x → dicts w' !! x = h5 !! x).
  { intros x [Hx _]. by apply Hk5. }
  split; [by eapply keeps_trans|].
  eexists. split; [rewrite Hi; apply lookup_insert_eq|]. simpl.
  assert (Hnew : ∀ l, config_reach (dicts w') fs l → new_in (dicts w) h5 l).
  { intros l. by apply config_reach_new. }
  split_and!.
  - intros Hnone. destruct (Hn1 Hnone) as (l0 & Hl0 & Hl0e).
    exists l0. split; [done|]. rewrite Hk5; [done|].
    apply elem_of_dom. by rewrite Hl0e.
  - done.
  - intros Hcl l Hl Hlive n. eapply deep_eq_keeps_r; [exact Hk5|]. by eapply He1.
  - intros Hcl l d Hl Hd0 n k.
    destruct (He2 Hcl l Hl) as (la & Hla & Heq); [by rewrite Hd0|].
    specialize (Heq (S n)). rewrite Hl in Heq.
    destruct Heq as (l' & d1 & d' & [= <-] & Hd1 & Hd' & Hall).
    rewrite Hd0 in Hd1. injection Hd1 as <-.
    rewrite Hla in Hd'. injection Hd' as <-.
    specialize (Hall k). destruct Hall; constructor.
    by eapply deep_eq_keeps_r.
  - intros l Hl. by destruct (Hnew l Hl).
  - intros h2 Hh2.
    assert (Hag2 : ∀ x, new_in (dicts w) h5 x → h2 !! x = h5 !! x).
    { intros x Hx. rewrite <- (Hag x Hx). destruct Hx as [Hx1 Hx2].
      apply Hh2; [|done]. by apply (keeps_dom _ _ Hk5). }
    assert (Hnew2 : ∀ l, config_reach h2 fs l → new_in (dicts w) h5 l).
    { intros l. by apply config_reach_new. }
    assert (Hsame : ∀ l, config_reach (dicts w') fs l → h2 !! l = dicts w' !! l).
    { intros l Hl%Hnew. by rewrite Hag, Hag2. }
    split_and!; [|done|].
    + intros l. split; apply config_reach_transfer.
      * intros x Hx%Hnew2. by rewrite Hag, Hag2.
      * done.
    + intros Hloc call. by apply Hloc.
Qed.

(** ** The theorems on the reference session *)

Lemma init_stores_bucket_path_witness :
  ∃ ds, insts Ref.w_new !! 0 = Some ds ∧
    ("test_bucket" ≠ "" →
     _filepath ds = parse "test_bucket/path/to/test.hdf" ∧
     (normal "test_bucket/path/to/test.hdf" = true →
      str (_filepath ds) = "test_bucket/path/to/test.hdf")).
Proof.
  apply (init_stores_bucket_path (SC:=Ref.s3) (KC:=Ref.core)
           "s3://path/to/test.hdf" "test_hdf_key" (Some "test_bucket")
           (VRef 1) (VRef 0) VNone None (VRef 3) Ref.world1 0 Ref.w_new).
  vm_compute. reflexivity.
Defined.

Lemma init_merges_options_witness :
  ∃ ds d_load d_save,
    insts Ref.w_new !! 0 = Some ds ∧
    dicts Ref.w_new !! _load_args ds = Some d_load ∧
    dicts Ref.w_new !! _save_args ds = Some d_save ∧
    merged Ref.caller_heap DEFAULT_LOAD_ARGS (VRef 0) d_load ∧
    merged Ref.caller_heap DEFAULT_SAVE_ARGS VNone d_save.
Proof.
  apply (init_merges_options (SC:=Ref.s3) (KC:=Ref.core)
           "s3://path/to/test.hdf" "test_hdf_key" (Some "test_bucket")
           (VRef 1) (VRef 0) VNone None (VRef 3) Ref.world1 0 Ref.w_new).
  - vm_compute. eexists. reflexivity.
  - exact I.
  - vm_compute. reflexivity.
Defined.

Lemma exists_looks_up_normalised_key_witness :
  (Ref.ds_exists 0 Ref.w_new).1 = Ok false ∧
  ∃ r, (Ref.ds_exists 0 Ref.w_saved).1 = Ok r ∧
       (r = true ↔ "/test_hdf_key" ∈ Ref.keys Ref.store_r).
Proof.
  split.
  - apply (exists_looks_up_normalised_key (SC:=Ref.s3) (TL:=Ref.tables_lib)
             (KC:=Ref.core) 0 Ref.ds0 Ref.w_new Ref.path0);
      vm_compute; reflexivity.
  - destruct (exists_looks_up_normalised_key (SC:=Ref.s3) (TL:=Ref.tables_lib)
                (KC:=Ref.core) 0 Ref.ds0 Ref.w_saved Ref.path0)
      as (_ & Hpresent & _); [vm_compute; reflexivity..|].
    destruct (Hpresent Ref.image0 {[ "title" := VStr "t" ]} Ref.store_r)
      as (r & Hr & Hiff & _); [vm_compute; reflexivity..|].
    exists r. split; [exact Hr | exact Hiff].
Defined.

Lemma load_passes_errors_through_witness :
  Ref.ds_load 0 Ref.w_latest =
    (Raise (VersionNotFoundError "Did not find any versions"),
     log ResolveLoad Ref.w_latest) ∧
  Ref.ds_load 0 Ref.w_new =
    (Raise (FileNotFoundError "test_bucket/path/to/test.hdf"),
     log (S3Read "test_bucket/path/to/test.hdf") (log ResolveLoad Ref.w_new)) ∧
  (Ref.ds_load 0 Ref.w_garbage).1 = Raise (ValueError "not an HDF5 file image") ∧
  (Ref.ds_load 0 Ref.w_other_key).1 = Raise (KeyError "other_key").
Proof.
  split_and!.
  - apply (load_passes_errors_through (SC:=Ref.s3) (TL:=Ref.tables_lib)
             (KC:=Ref.core) 0 Ref.ds_latest Ref.w_latest);
      vm_compute; reflexivity.
  - destruct (load_passes_errors_through (SC:=Ref.s3) (TL:=Ref.tables_lib)
                (KC:=Ref.core) 0 Ref.ds0 Ref.w_new) as [_ Hresolved];
      [vm_compute; reflexivity|].
    destruct (Hresolved Ref.path0) as (_ & Habsent & _); [vm_compute; reflexivity|].
    apply Habsent; vm_compute; reflexivity.
  - destruct (load_passes_errors_through (SC:=Ref.s3) (TL:=Ref.tables_lib)
                (KC:=Ref.core) 0 Ref.ds0 Ref.w_garbage) as [_ Hresolved];
      [vm_compute; reflexivity|].
    destruct (Hresolved Ref.path0) as (_ & _ & Hpresent); [vm_compute; reflexivity|].
    destruct (Hpresent [Byte.x07] {[ "title" := VStr "t" ]}) as [Hformat _];
      [vm_compute; reflexivity..|].
    unfold Ref.ds_load.
    rewrite (Hformat (ValueError "not an HDF5 file image")); [reflexivity|].
    vm_compute; reflexivity.
  - destruct (load_passes_errors_through (SC:=Ref.s3) (TL:=Ref.tables_lib)
                (KC:=Ref.core) 0 Ref.ds_other_key Ref.w_other_key) as [_ Hresolved];
      [vm_compute; reflexivity|].
    destruct (Hresolved Ref.path0) as (_ & _ & Hpresent); [vm_compute; reflexivity|].
    destruct (Hpresent Ref.image0 {[ "title" := VStr "t" ]}) as [_ Hopened];
      [vm_compute; reflexivity..|].
    unfold Ref.ds_load.
    rewrite (Hopened Ref.store_r); [reflexivity|].
    vm_compute; reflexivity.
Defined.

Lemma describe_five_fields_witness :
  ∃ m, _describe 0 Ref.w_new = (Ok m, Ref.w_new) ∧
    dom m = ({["filepath"; "key"; "load_args"; "save_args"; "version"]} : gset string) ∧
    m !! "filepath" = Some (DPath Ref.path0).
Proof.
  destruct (describe_five_fields 0 Ref.ds0 Ref.w_new) as (m & Hm & Hdom & Hpath & _);
    [vm_compute; reflexivity|].
  exists m. split_and!; [exact Hm | exact Hdom | exact Hpath].
Defined.

Lemma save_overwrites_witness :
  (Ref.ds_save 0 Ref.data Ref.w_new).1 = Ok tt ∧
  remote (Ref.ds_save 0 Ref.data Ref.w_new).2 =
    <["test_bucket/path/to/test.hdf" := Ref.image0]> (remote Ref.w_new) ∧
  ∀ x, x ∈ Ref.keys Ref.store_put1 ↔ x = "/test_hdf_key".
Proof.
  destruct (save_overwrites (SC:=Ref.s3) (TL:=Ref.tables_lib) (KC:=Ref.core)
              0 Ref.ds0 Ref.w_new Ref.path0 ∅ Ref.data Ref.store_w Ref.store_put1
              Ref.image0)
    as (Hok & _ & _ & Hremote & _ & Hkeys); [vm_compute; reflexivity..|].
  split_and!; [exact Hok | exact Hremote |].
  apply Hkeys; [reflexivity|].
  intros x. cbn. rewrite list_elem_of_singleton, elem_of_nil. tauto.
Defined.


Lemma load_after_save_witness :
  (Ref.ds_load 0 Ref.w_saved).1 = Ok Ref.data.
Proof.
  apply (load_after_save (SC:=Ref.s3) (TL:=Ref.tables_lib) (KC:=Ref.core)
           0 Ref.ds0 Ref.w_new Ref.path0 Ref.data Ref.w_saved
           ∅ {[ "title" := VStr "t" ]});
    try (vm_compute; reflexivity).
  - intros k Hk. apply list_elem_of_In in Hk. simpl in Hk.
    destruct Hk as [<-|[<-|[<-|[<-|[]]]]]; vm_compute; reflexivity.
  - intros store0 store1 img Hopen Hput Himg.
    vm_compute in Hopen. injection Hopen as <-.
    vm_compute in Hput. injection Hput as <-.
    vm_compute in Himg. injection Himg as <-.
    exists Ref.store_r. split; vm_compute; reflexivity.
Defined.

(** The reference helper resolves the load and the save to one path when
    there is no version selector, and when the selector pins one version for
    both. *)
Lemma ref_paths_agree ds w w' :
  _version ds = None ∨
  (∃ v, _version ds = Some {| load := Some v; save := Some v |}) →
  ∃ p, Ref.get_save_path ds w = Ok p ∧ Ref.get_load_path ds w' = Ok p.
Proof.
  unfold Ref.get_save_path, Ref.get_load_path.
  intros [->|(v & ->)]; simpl; eauto.
Qed.

(** With no version pinned, the save makes a version from the clock and
    the load finds it as the most recent one. *)
Example roundtrip_latest_version :
  (Ref.ds_load 0 (Ref.ds_save 0 Ref.data Ref.w_latest).2).1 = Ok Ref.data.
Proof. vm_compute. reflexivity. Qed.

(** With [Version(load="v1", save="v2")] the save writes version v2 and the
    load looks for version v1, which is not there. *)
Lemma roundtrip_as_stated_fails : ¬ roundtrip_as_stated.
Proof.
  intros Hclaim.
  specialize (Hclaim "test.hdf" "test_hdf_key" (Some "test_bucket") VNone VNone
                VNone (Some Ref.pinned) VNone Ref.world0 0 Ref.w_pinned Ref.data
                Ref.w_pinned_saved).
  assert (Hload : (Ref.ds_load 0 Ref.w_pinned_saved).1
                  = Raise (FileNotFoundError "test_bucket/test.hdf/v1/test.hdf"))
    by (vm_compute; reflexivity).
  rewrite Hload in Hclaim.
  assert (Hno : Raise (FileNotFoundError "test_bucket/test.hdf/v1/test.hdf")
                = Ok Ref.data) by (apply Hclaim; vm_compute; reflexivity).
  discriminate Hno.
Qed.


Lemma init_copies_client_arguments_witness :
  keeps Ref.caller_heap (dicts Ref.w_new) ∧
  ∃ ds, insts Ref.w_new !! 0 = Some ds ∧
    (∀ n, deep_eq n Ref.caller_heap (VRef 1) (dicts Ref.w_new) (client_kwargs (_s3 ds))) ∧
    ∀ l, config_reach (dicts Ref.w_new) (_s3 ds) l → l ∉ dom Ref.caller_heap.
Proof.
  destruct (init_copies_client_arguments (SC:=Ref.s3) (KC:=Ref.core)
              "s3://path/to/test.hdf" "test_hdf_key" (Some "test_bucket")
              (VRef 1) (VRef 0) VNone None (VRef 3) Ref.world1 0 Ref.w_new)
    as (Hkeeps & ds & Hds & _ & _ & Hcopy & _ & Hfresh & _); [vm_compute; reflexivity|].
  split; [exact Hkeeps|]. exists ds. split_and!; [exact Hds | | exact Hfresh].
  assert (Hclosed : closed Ref.caller_heap).
  { apply closedb_closed. vm_compute. reflexivity. }
  apply (Hcopy Hclosed 1 eq_refl).
  vm_compute. eexists. reflexivity.
Defined.

(** * Further properties of the methods *)

(** ** [_save] *)

Section SaveProperties.
Context {SC : StorageClient} {TL : TableFileLibrary} {KC : KedroCore}.

(** X1.  [_save] is all or nothing on the bucket: a save that returns has
    replaced the object at the resolved save path and touched no other; a
    save that raises, at whatever step, leaves the bucket as it was. *)
Theorem save_all_or_nothing self data w :
  match (_save self data w).1 with
  | Ok _ =>
      ∃ ds p img,
        insts w !! self = Some ds ∧ _get_save_path ds w = Ok p ∧
        remote (_save self data w).2 = <[str p:=img]> (remote w)
  | Raise _ => remote (_save self data w).2 = remote w
  end.
Proof.
  rewrite _save_eq.
  destruct (insts w !! self) as [ds|] eqn:Hself; [|done].
  destruct (_get_save_path ds w) as [p|e] eqn:Hp; [|done]. cbn zeta.
  destruct (dicts w !! _save_args ds) as [kwargs|]; [|done].
  destruct (pd_HDFStore _ _ _ _ _ _ _) as [store0|e]; [|done].
  destruct (store_put _ _ _ _) as [store1|e]; [|done].
  destruct (get_file_image _) as [img|e]; [|done].
  destruct (s3_fault _ _ _); [done|]. simpl. by exists ds, p, img.
Qed.

(** X2.  [_save] builds the whole image before it turns to the bucket: an
    error of the path resolution, of [pd.HDFStore], of [put] or of
    [get_file_image] is the result as it was raised, with no write
    attempted; an error of the write comes last. *)
Theorem save_passes_errors_through self ds w kwargs :
  insts w !! self = Some ds →
  dicts w !! _save_args ds = Some kwargs →
  ∀ data,
  (∀ e, _get_save_path ds w = Raise e →
        _save self data w = (Raise e, log ResolveSave w)) ∧
  (∀ p, _get_save_path ds w = Ok p →
     let w2 := log (HdfOpen "w") (log ResolveSave w) in
     (∀ e, pd_HDFStore (dicts w) (str (_filepath ds)) "w" HDFSTORE_DRIVER 0 None kwargs
           = Raise e → _save self data w = (Raise e, w2)) ∧
     (∀ store0, pd_HDFStore (dicts w) (str (_filepath ds)) "w" HDFSTORE_DRIVER 0 None
                  kwargs = Ok store0 →
        let w3 := log (HdfPut (_key ds)) w2 in
        (∀ e, store_put store0 (_key ds) data "table" = Raise e →
              _save self data w = (Raise e, w3)) ∧
        (∀ store1, store_put store0 (_key ds) data "table" = Ok store1 →
           let w4 := log HdfImage w3 in
           (∀ e, get_file_image store1 = Raise e →
                 _save self data w = (Raise e, w4)) ∧
           (∀ img e, get_file_image store1 = Ok img →
                 s3_fault (dicts w) (_s3 ds) (CallOpenWrite (str p)) = Some e →
                 _save self data w = (Raise e, log (S3Write (str p)) w4))))).
Proof.
  intros Hself Hkw data. rewrite _save_eq, Hself. split.
  - by intros e ->.
  - intros p ->. cbn zeta. rewrite Hkw. split.
    + by intros e ->.
    + intros store0 ->. split.
      * by intros e ->.
      * intros store1 ->. split.
        -- by intros e ->.
        -- by intros img e -> ->.
Qed.

(** X3.  The last save wins: after two saves that returned and resolved to
    one path, the bucket is what the second save alone would have left. *)
Theorem save_twice self ds w p data1 data2 w1 w2 :
  insts w !! self = Some ds →
  _get_save_path ds w = Ok p →
  _get_save_path ds w1 = Ok p →
  _save self data1 w = (Ok tt, w1) →
  _save self data2 w1 = (Ok tt, w2) →
  (_save self data2 w).1 = Ok tt ∧
  remote w2 = remote (_save self data2 w).2.
Proof.
  intros Hself Hp Hp1 Hs1 Hs2.
  destruct (save_frame _ _ _ _ _ Hs1) as (Hd & Hi).
  assert (Hr1 : ∃ img1, remote w1 = <[str p:=img1]> (remote w)).
  { rewrite _save_eq, Hself, Hp in Hs1. cbn zeta in Hs1.
    repeat case_match; simplify_eq. simpl. eauto. }
  destruct Hr1 as (img1 & Hr1).
  rewrite _save_eq, Hi, Hself, Hp1, Hd in Hs2. cbn zeta in Hs2.
  rewrite _save_eq, Hself, Hp. cbn zeta.
  destruct (dicts w !! _save_args ds) as [kwargs|]; [|discriminate].
  destruct (pd_HDFStore _ _ _ _ _ _ _) as [store0|e]; [|discriminate].
  destruct (store_put _ _ _ _) as [store1|e]; [|discriminate].
  destruct (get_file_image _) as [img|e]; [|discriminate].
  destruct (s3_fault _ _ _); [discriminate|].
  injection Hs2 as <-. simpl. split; [done|].
  by rewrite Hr1, insert_insert_eq.
Qed.

(** X4.  A save option named [mode], [driver] or
    [driver_core_backing_store] repeats a keyword [_save] passes itself: the
    save raises [TypeError] and leaves the bucket as it was.  An option
    named [driver_core_image] is no such keyword for [_save]: it goes to the
    table library with the other options. *)
Theorem save_rejects_reserved_option self ds w p kwargs :
  insts w !! self = Some ds →
  _get_save_path ds w = Ok p →
  dicts w !! _save_args ds = Some kwargs →
  (∀ k data, k ∈ save_keywords → is_Some (kwargs !! k) →
     (∃ msg, (_save self data w).1 = Raise (TypeError msg)) ∧
     remote (_save self data w).2 = remote w) ∧
  ((∀ k, k ∈ save_keywords → kwargs !! k = None) →
   pd_HDFStore (dicts w) (str (_filepath ds)) "w" HDFSTORE_DRIVER 0 None kwargs =
   hdf_open (dicts w) (str (_filepath ds)) "w" HDFSTORE_DRIVER 0 None kwargs).
Proof.
  intros Hself Hp Hkw. split.
  - intros k data Hk Hsome.
    destruct (pd_HDFStore_keyword (dicts w) (str (_filepath ds)) "w" HDFSTORE_DRIVER 0
                None kwargs k) as [msg Hmsg]; [done | done |].
    rewrite _save_eq, Hself, Hp. cbn zeta. rewrite Hkw, Hmsg. simpl. eauto.
  - intros Hnone. by apply pd_HDFStore_free.
Qed.

End SaveProperties.

(** ** [_load], [_exists] and [_describe] *)

Section ReadProperties.
Context {SC : StorageClient} {TL : TableFileLibrary} {KC : KedroCore}.

(** X5.  [_load], [_exists] and [_describe] only read: whatever they return
    or raise, the bucket is as it was. *)
Theorem reads_leave_bucket self w :
  remote (_load self w).2 = remote w ∧
  remote (_exists self w).2 = remote w ∧
  remote (_describe self w).2 = remote w.
Proof.
  split_and!.
  - rewrite _load_eq. repeat case_match; done.
  - rewrite _exists_eq. repeat case_match; done.
  - rewrite _describe_eq. repeat case_match; done.
Qed.

(** X6.  [_exists] has no handler of its own: when the load path cannot be
    resolved, when [isfile] or the read fails, or when the object is there
    but cannot be opened as a store, it raises that error instead of
    returning [False]. *)
Theorem exists_passes_errors_through self ds w :
  insts w !! self = Some ds →
  (∀ e, _get_load_path ds w = Raise e → (_exists self w).1 = Raise e) ∧
  (∀ p, _get_load_path ds w = Ok p →
     (∀ e, s3_fault (dicts w) (_s3 ds) (CallIsfile (str p)) = Some e →
           (_exists self w).1 = Raise e) ∧
     (∀ b, s3_fault (dicts w) (_s3 ds) (CallIsfile (str p)) = None →
        remote w !! str p = Some b →
        (∀ e, s3_fault (dicts w) (_s3 ds) (CallOpenRead (str p)) = Some e →
              (_exists self w).1 = Raise e) ∧
        (∀ kwargs e,
           s3_fault (dicts w) (_s3 ds) (CallOpenRead (str p)) = None →
           dicts w !! _load_args ds = Some kwargs →
           pd_HDFStore (dicts w) (str (_filepath ds)) "r" HDFSTORE_DRIVER 0 (Some b)
             kwargs = Raise e →
           (_exists self w).1 = Raise e ∧
           calls (_exists self w).2 =
             (calls w ++ [ResolveLoad; S3Isfile (str p); S3Read (str p);
                          HdfOpen "r"])%list))).
Proof.
  intros Hself. rewrite _exists_eq, Hself. split.
  - by intros e ->.
  - intros p ->. cbn zeta. split.
    + by intros e ->.
    + intros b -> ->. split.
      * by intros e ->.
      * intros kwargs e -> -> ->. split; [done|].
        simpl. by rewrite <- !app_assoc.
Qed.

(** X7.  A load option named [mode], [driver], [driver_core_backing_store]
    or [driver_core_image] repeats a keyword [_load] and [_exists] pass
    themselves: with an object at the load path both raise [TypeError],
    while [_exists] still answers [False] when there is none. *)
Theorem load_rejects_reserved_option self ds w p kwargs k :
  insts w !! self = Some ds →
  _get_load_path ds w = Ok p →
  dicts w !! _load_args ds = Some kwargs →
  k ∈ load_keywords → is_Some (kwargs !! k) →
  s3_fault (dicts w) (_s3 ds) (CallIsfile (str p)) = None →
  s3_fault (dicts w) (_s3 ds) (CallOpenRead (str p)) = None →
  (is_Some (remote w !! str p) →
   (∃ msg, (_load self w).1 = Raise (TypeError msg)) ∧
   (∃ msg, (_exists self w).1 = Raise (TypeError msg))) ∧
  (remote w !! str p = None → (_exists self w).1 = Ok false).
Proof.
  intros Hself Hp Hkw Hk Hsome Hfi Hfr.
  rewrite _load_eq, _exists_eq, Hself, Hp. cbn zeta. rewrite Hfi, Hfr. split.
  - intros [b ->]. rewrite Hkw.
    destruct (pd_HDFStore_keyword (dicts w) (str (_filepath ds)) "r" HDFSTORE_DRIVER 0
                (Some b) kwargs k) as [msg ->]; [done | done |].
    simpl. eauto.
  - by intros ->.
Qed.

(** X8.  [_exists] does not tell a key without a leading slash from the same
    key with a slash in front: a data set with key [k] and one with key
    ["/" + k], at one load path, get the same answer. *)
Theorem exists_ignores_leading_slash self ds w :
  insts w !! self = Some ds →
  startswith_slash (_key ds) = false →
  let ds' := with_key ("/" +:+ _key ds) ds in
  let w' := set_insts (<[self:=ds']> (insts w)) w in
  _get_load_path ds' w' = _get_load_path ds w →
  (_exists self w').1 = (_exists self w).1.
Proof.
  intros Hself Hslash ds' w' Hp.
  rewrite !_exists_eq, Hself. subst w'. cbn [insts set_insts].
  rewrite lookup_insert_eq, Hp.
  destruct (_get_load_path ds w) as [p|e]; [|done]. cbn zeta.
  cbn [dicts remote set_insts _s3 _load_args _filepath _key with_key ds'].
  destruct (s3_fault _ _ (CallIsfile _)); [done|].
  destruct (remote w !! str p) as [b|]; [|done].
  destruct (s3_fault _ _ (CallOpenRead _)); [done|].
  destruct (dicts w !! _load_args ds) as [kwargs|]; [|done].
  destruct (pd_HDFStore _ _ _ _ _ _ _) as [store|e]; [|done].
  simpl. do 2 f_equal. unfold key_with_slash. simpl.
  by rewrite Hslash.
Qed.

(** X9.  An [_exists] that answers [True] has opened a store that lists the
    key, and [_load] in the same world gets as far as looking the key up in
    that store: its result is the result of that lookup.  An [_exists] that
    answers [False] for want of an object means a [_load] that raises. *)
Theorem exists_then_load self w :
  ((_exists self w).1 = Ok true →
   ∃ ds store,
     insts w !! self = Some ds ∧
     key_with_slash (_key ds) ∈ store_keys store ∧
     (_load self w).1 = store_getitem store (_key ds)) ∧
  (∀ ds p, insts w !! self = Some ds → _get_load_path ds w = Ok p →
     remote w !! str p = None → (_exists self w).1 = Ok false →
     ∃ e, (_load self w).1 = Raise e).
Proof.
  split.
  - rewrite _exists_eq, _load_eq.
    destruct (insts w !! self) as [ds|]; [|discriminate].
    destruct (_get_load_path ds w) as [p|e]; [|discriminate]. cbn zeta.
    destruct (s3_fault _ _ (CallIsfile _)); [discriminate|].
    destruct (remote w !! str p) as [b|]; [|discriminate].
    destruct (s3_fault _ _ (CallOpenRead _)); [discriminate|].
    destruct (dicts w !! _load_args ds) as [kwargs|]; [|discriminate].
    destruct (pd_HDFStore _ _ _ _ _ _ _) as [store|e]; [|discriminate].
    simpl. intros [= Hin%bool_decide_eq_true]. by exists ds, store.
  - intros ds p Hself Hp Hr _. rewrite _load_eq, Hself, Hp. cbn zeta.
    rewrite Hr. destruct (s3_fault _ _ _); simpl; eauto.
Qed.

End ReadProperties.

(** ** [__init__] *)

Lemma offline_ret {A} (a : A) : offline (ret a).
Proof. intros w. split_and!; try done. exists []. by rewrite app_nil_r. Qed.

Lemma offline_raise {A} e : offline (@raise A e).
Proof. intros w. split_and!; try done. exists []. by rewrite app_nil_r. Qed.

Lemma offline_lift {A} (r : res A) : offline (lift r).
Proof. intros w. split_and!; try done. exists []. by rewrite app_nil_r. Qed.

Lemma offline_read {A} (f : world → A) : offline (read f).
Proof. intros w. split_and!; try done. exists []. by rewrite app_nil_r. Qed.

Lemma offline_tell ev : no_io ev → offline (tell ev).
Proof. intros Hev w. split_and!; try done. exists [ev]. split; [done|]. by constructor. Qed.

Lemma offline_set_dicts {A} (f : world → res A * heap) :
  offline (λ w, ((f w).1, set_dicts (f w).2 w)).
Proof. intros w. split_and!; try done. exists []. by rewrite app_nil_r. Qed.

Lemma offline_bind {A B} (c : M A) (k : A → M B) :
  offline c → (∀ a, offline (k a)) → offline (bind c k).
Proof.
  intros Hc Hk w. unfold bind.
  destruct (Hc w) as (Hr & Hi & Hcl & evs & Hcalls & Hevs).
  destruct (c w) as [[a|e] w1]; simpl in *.
  - destruct (Hk a w1) as (Hr' & Hi' & Hcl' & evs' & Hcalls' & Hevs').
    split_and!; [congruence..|]. exists (evs ++ evs')%list. split.
    + by rewrite Hcalls', Hcalls, app_assoc.
    + by apply Forall_app.
  - split_and!; [done..|]. eauto.
Qed.

Lemma offline_deepcopy v : offline (deepcopy v).
Proof.
  intros w. unfold deepcopy. destruct (deepcopy_val _ _ _) as [[v' st]|]; simpl;
    (split_and!; [done..|]; exists []; by rewrite app_nil_r).
Qed.

Lemma offline_new_dict d : offline (new_dict d).
Proof. intros w. split_and!; try done. exists []. by rewrite app_nil_r. Qed.

Lemma offline_or_empty_dict v : offline (or_empty_dict v).
Proof.
  unfold or_empty_dict. apply offline_bind; [apply offline_read|].
  intros []; [apply offline_ret|].
  apply offline_bind; [apply offline_new_dict|]. intros l. apply offline_ret.
Qed.

Lemma offline_as_mapping what v : offline (as_mapping what v).
Proof.
  destruct v; simpl; try apply offline_raise.
  apply offline_bind; [apply offline_read|].
  intros []; [apply offline_ret | apply offline_raise].
Qed.

Lemma offline_dict_update l other : offline (dict_update l other).
Proof.
  unfold dict_update. apply offline_bind; [apply offline_as_mapping|].
  intros o w. split_and!; try done. exists []. by rewrite app_nil_r.
Qed.

Lemma offline_S3FileSystem_new {SC : StorageClient} c a :
  offline (S3FileSystem_new c a).
Proof.
  unfold S3FileSystem_new.
  apply offline_bind; [apply offline_as_mapping|]. intros kw.
  apply offline_bind; [apply offline_lift|]. intros _.
  apply offline_bind; [by apply offline_tell|]. intros _.
  apply offline_bind; [apply offline_read|].
  intros []; [apply offline_raise | apply offline_ret].
Qed.

Lemma constructs_bind {A} (c : M A) (k : A → M loc) :
  offline c → (∀ a, constructs (k a)) → constructs (bind c k).
Proof.
  intros Hc Hk w. unfold bind.
  destruct (Hc w) as (Hr & Hi & Hcl & evs & Hcalls & Hevs).
  destruct (c w) as [[a|e] w1]; simpl in *.
  - destruct (Hk a w1) as (Hr' & (evs' & Hcalls' & Hevs') & Hres).
    split_and!; [congruence | |].
    + exists (evs ++ evs')%list. split.
      * by rewrite Hcalls', Hcalls, app_assoc.
      * by apply Forall_app.
    + destruct (k a w1) as [[self|e] w2]; simpl in *; by rewrite <- Hi.
  - split_and!; [done | eauto | done].
Qed.

Lemma init_constructs {SC : StorageClient} {KC : KedroCore}
    filepath key bucket_name credentials load_args save_args version s3fs_args :
  constructs (__init__ filepath key bucket_name credentials load_args save_args
                version s3fs_args).
Proof.
  unfold __init__.
  apply constructs_bind; [by apply offline_tell|]. intros _.
  apply constructs_bind; [apply offline_lift|]. intros _.
  apply constructs_bind; [apply offline_deepcopy|]. intros c.
  apply constructs_bind; [apply offline_or_empty_dict|]. intros c'.
  apply constructs_bind; [apply offline_deepcopy|]. intros a.
  apply constructs_bind; [apply offline_or_empty_dict|]. intros a'.
  apply constructs_bind; [apply offline_S3FileSystem_new|]. intros fs.
  apply constructs_bind; [apply offline_new_dict|]. intros la.
  apply constructs_bind.
  { destruct load_args; first [apply offline_ret | apply offline_dict_update]. }
  intros _.
  apply constructs_bind; [apply offline_new_dict|]. intros sa.
  apply constructs_bind.
  { destruct save_args; first [apply offline_ret | apply offline_dict_update]. }
  intros _ w. simpl. refine (conj _ (conj _ _)); [done | | ].
  - exists []. by rewrite app_nil_r.
  - split; [|eauto]. apply not_elem_of_dom. apply is_fresh.
Qed.

(** X10.  Construction stays in the process: whether [__init__] returns or
    raises, the bucket is as it was and nothing was asked of the bucket, the
    versioning helper or the table library (the only calls are the warning
    and the making of the client); a construction that returns has added its
    instance at a free place and left the instances there were alone, one
    that raises has added none. *)
Theorem init_stays_offline {SC : StorageClient} {KC : KedroCore}
    filepath key bucket_name credentials load_args save_args version s3fs_args w :
  let run := __init__ filepath key bucket_name credentials load_args save_args
               version s3fs_args w in
  remote run.2 = remote w ∧
  (∃ evs, calls run.2 = (calls w ++ evs)%list ∧ Forall no_io evs) ∧
  match run.1 with
  | Ok self => insts w !! self = None ∧ ∃ ds, insts run.2 = <[self:=ds]> (insts w)
  | Raise _ => insts run.2 = insts w
  end.
Proof.
  exact (init_constructs filepath key bucket_name credentials load_args save_args
           version s3fs_args w).
Qed.

(** X11.  The option dictionaries of a data set are its own: two new
    objects, different from each other, from every dictionary of the caller
    and from the client's configuration, even when the caller passes one
    dictionary for both.  With the empty defaults of this class each holds
    exactly the items of the caller's mapping; the values are the caller's
    values themselves, so a nested dictionary is shared, not copied. *)
Theorem init_option_dicts_are_own {SC : StorageClient} {KC : KedroCore}
    filepath key bucket_name credentials load_args save_args version s3fs_args
    w self w' :
  __init__ filepath key bucket_name credentials load_args save_args version
    s3fs_args w = (Ok self, w') →
  ∃ ds, insts w' !! self = Some ds ∧
    (_load_args ds ∉ dom (dicts w)) ∧ (_save_args ds ∉ dom (dicts w)) ∧
    _load_args ds ≠ _save_args ds ∧
    (∀ l, config_reach (dicts w') (_s3 ds) l →
          l ≠ _load_args ds ∧ l ≠ _save_args ds) ∧
    (∀ l u, load_args = VRef l → dicts w !! l = Some u →
            dicts w' !! _load_args ds = Some u) ∧
    (∀ l u, save_args = VRef l → dicts w !! l = Some u →
            dicts w' !! _save_args ds = Some u).
Proof.
  intros Hrun.
  apply init_inv in Hrun
    as (h5 & fs & d_la & d_sa & Hk & Hiso & Hc & Hkw & _ & _ & Hd & Hu1 & Hu2 & _ & Hi
        & _).
  cbn zeta in Hd, Hi.
  set (lla := fresh (dom h5)) in *.
  set (lsa := fresh (dom (<[lla:=d_la]> h5))) in *.
  assert (Hlla : lla ∉ dom h5) by apply is_fresh.
  assert (Hlsa : lsa ∉ dom (<[lla:=d_la]> h5)) by apply is_fresh.
  rewrite dom_insert_L in Hlsa.
  pose proof (keeps_dom _ _ Hk) as Hsub.
  assert (Hne : lla ≠ lsa) by (intros Heq; set_solver).
  assert (Hag : ∀ x, new_in (dicts w) h5 x → dicts w' !! x = h5 !! x).
  { intros x [Hx _]. rewrite Hd.
    rewrite !lookup_insert_ne; [done | intros ->; set_solver | intros ->; set_solver]. }
  eexists. split; [rewrite Hi; apply lookup_insert_eq|]. simpl.
  split_and!; [set_solver | set_solver | done | | |].
  - intros l Hl.
    assert (Hnew : new_in (dicts w) h5 l) by by eapply config_reach_new.
    destruct Hnew as [Hin _]. split; intros ->; set_solver.
  - intros l u -> Hu. simpl in Hu1.
    destruct Hu1 as (u' & Hu' & [= ->]); [apply elem_of_dom; eauto|].
    rewrite Hu in Hu'. injection Hu' as <-.
    rewrite Hd, lookup_insert_ne by done. rewrite lookup_insert_eq.
    f_equal. unfold DEFAULT_LOAD_ARGS. by rewrite (right_id_L ∅ (∪)).
  - intros l u -> Hu. simpl in Hu2.
    destruct Hu2 as (u' & Hu' & [= ->]); [apply elem_of_dom; eauto|].
    rewrite Hu in Hu'. injection Hu' as <-.
    rewrite Hd, lookup_insert_eq.
    f_equal. unfold DEFAULT_SAVE_ARGS. by rewrite (right_id_L ∅ (∪)).
Qed.



(** ** The printed path *)

Lemma split_on_slashless s : Forall (λ x, slashless x = true) (split_on "/" s).
Proof.
  induction s as [|c s IH]; simpl; [by repeat constructor|].
  destruct (Ascii.eqb c "/") eqn:Hc; [by constructor|].
  destruct (split_on "/" s) as [|x xs].
  - repeat constructor. simpl. by rewrite Hc.
  - inversion IH; subst. constructor; [|done]. simpl. by rewrite Hc.
Qed.

Lemma split_on_one x : slashless x = true → split_on "/" x = [x].
Proof.
  induction x as [|c x IH]; simpl; [done|].
  intros [Hc Hx]%andb_true_iff. apply negb_true_iff in Hc.
  by rewrite Hc, (IH Hx).
Qed.

Lemma split_on_cons x t :
  slashless x = true → split_on "/" (x +:+ "/" +:+ t) = x :: split_on "/" t.
Proof.
  induction x as [|c x IH]; simpl; [done|].
  intros [Hc Hx]%andb_true_iff. apply negb_true_iff in Hc.
  by rewrite Hc, (IH Hx).
Qed.

Lemma split_on_join ps :
  ps ≠ [] → Forall (λ x, slashless x = true) ps → split_on "/" (join "/" ps) = ps.
Proof.
  induction ps as [|x [|y rest] IH]; [done| |]; intros _ Hall; inversion Hall; subst.
  - by apply split_on_one.
  - change (join "/" (x :: y :: rest)) with (x +:+ "/" +:+ join "/" (y :: rest)).
    rewrite split_on_cons by done. f_equal. by apply IH.
Qed.

Lemma leading_join ps :
  forallb keep_part ps = true → Forall (λ x, slashless x = true) ps →
  leading "/" (join "/" ps) = 0.
Proof.
  destruct ps as [|x rest]; [done|]. simpl forallb.
  intros [Hx _]%andb_true_iff Hall. inversion Hall as [|? ? Hs _]; subst.
  destruct x as [|c x]; [discriminate|].
  simpl in Hs. apply andb_true_iff in Hs as [Hc%negb_true_iff _].
  destruct rest; simpl; by rewrite Hc.
Qed.

Lemma forallb_filter {A} (p : A → bool) l : forallb p (List.filter p l) = true.
Proof.
  induction l as [|a l IH]; simpl; [done|].
  destruct (p a) eqn:Ha; simpl; [by rewrite Ha|done].
Qed.

Lemma Forall_filter_bool {A} (P : A → Prop) (p : A → bool) l :
  Forall P l → Forall P (List.filter p l).
Proof.
  induction 1 as [|a l Ha Hl IH]; simpl; [constructor|].
  destruct (p a); [by constructor | done].
Qed.

Lemma parse_str r ps :
  r = "" ∨ r = "/" ∨ r = "//" →
  forallb keep_part ps = true → Forall (λ x, slashless x = true) ps →
  parse (str {| root := r; parts := ps |}) = {| root := r; parts := ps |}.
Proof.
  intros Hr Hkeep Hall.
  pose proof (leading_join ps Hkeep Hall) as Hlead.
  assert (Hparts : List.filter keep_part (split_on "/" (join "/" ps)) = ps).
  { destruct ps as [|x rest]; [done|]. by rewrite split_on_join, filter_all. }
  unfold parse, str, splitroot. cbn [root parts].
  destruct Hr as [-> | [-> | ->]].
  - destruct ps as [|x rest]; [done|].
    change ("" +:+ join "/" (x :: rest)) with (join "/" (x :: rest)).
    by rewrite Hlead, Hparts.
  - destruct (join "/" ps) as [|c t] eqn:Ht; [by subst|].
    change ("/" +:+ String c t) with (String "/" (String c t)).
    change (split_on "/" (String "/" (String c t)))
      with ("" :: split_on "/" (String c t)).
    change (leading "/" (String "/" (String c t)))
      with (S (leading "/" (String c t))).
    change (List.filter keep_part ("" :: split_on "/" (String c t)))
      with (List.filter keep_part (split_on "/" (String c t))).
    by rewrite Hlead, Hparts.
  - destruct (join "/" ps) as [|c t] eqn:Ht; [by subst|].
    change ("//" +:+ String c t) with (String "/" (String "/" (String c t))).
    change (split_on "/" (String "/" (String "/" (String c t))))
      with ("" :: "" :: split_on "/" (String c t)).
    change (leading "/" (String "/" (String "/" (String c t))))
      with (S (S (leading "/" (String c t)))).
    change (List.filter keep_part ("" :: "" :: split_on "/" (String c t)))
      with (List.filter keep_part (split_on "/" (String c t))).
    by rewrite Hlead, Hparts.
Qed.

Lemma parse_str_parse s : parse (str (parse s)) = parse s.
Proof.
  apply parse_str.
  - unfold parse, splitroot. cbn [root].
    destruct (leading "/" s) as [|[|[|n]]]; auto.
  - apply forallb_filter.
  - apply Forall_filter_bool, split_on_slashless.
Qed.

(** X13.  The stored path is in the form it prints in: whatever [filepath]
    and [bucket_name] were (doubled or trailing slashes, [.] components),
    the string [_load], [_save] and [_exists] give to [pd.HDFStore],
    [str(self._filepath)], names the stored path again, and no component of
    the stored path is empty, [.] or has a slash in it. *)
Theorem init_path_is_canonical {SC : StorageClient} {KC : KedroCore}
    filepath key bucket_name credentials load_args save_args version s3fs_args
    w self w' :
  __init__ filepath key bucket_name credentials load_args save_args version
    s3fs_args w = (Ok self, w') →
  ∃ ds, insts w' !! self = Some ds ∧
    parse (str (_filepath ds)) = _filepath ds ∧
    (∀ x, x ∈ parts (_filepath ds) → x ≠ "" ∧ x ≠ "." ∧ slashless x = true).
Proof.
  intros Hrun.
  apply init_inv in Hrun
    as (h5 & fs & d_la & d_sa & _ & _ & _ & _ & _ & _ & _ & _ & _ & _ & Hi & _).
  eexists. split; [rewrite Hi; apply lookup_insert_eq|]. cbn [_filepath].
  unfold init_path. split; [apply parse_str_parse|].
  intros x Hx. unfold parse in Hx. cbn [parts] in Hx.
  apply list_elem_of_In, List.filter_In in Hx as [Hin Hkeep].
  unfold keep_part in Hkeep.
  apply andb_true_iff in Hkeep as [He%negb_true_iff%String.eqb_neq
                                     Hd%negb_true_iff%String.eqb_neq].
  split_and!; [done | done |].
  pose proof (split_on_slashless
                match bucket_name with
                | Some b =>
                    if negb (String.eqb b "")
                    then b +:+ "/" +:+ _strip_protocol filepath
                    else _strip_protocol filepath
                | None => _strip_protocol filepath
                end) as Hall.
  rewrite Forall_forall in Hall. apply Hall. by apply list_elem_of_In.
Qed.

(** ** The further properties on the reference session *)

Lemma save_passes_errors_through_witness :
  Ref.ds_save 0 Ref.data Ref.w_mode_save =
    (Raise (TypeError "got multiple values for keyword argument mode"),
     log (HdfOpen "w") (log ResolveSave Ref.w_mode_save)).
Proof.
  destruct (λ H1 H2, save_passes_errors_through (SC:=Ref.s3) (TL:=Ref.tables_lib)
              (KC:=Ref.core) 0 Ref.ds0 Ref.w_mode_save {[ "mode" := VStr "a" ]}
              H1 H2 Ref.data) as [_ Hresolved]; [vm_compute; reflexivity..|].
  destruct (Hresolved Ref.path0) as [Hopen _]; [vm_compute; reflexivity|].
  apply Hopen. vm_compute. reflexivity.
Defined.

Lemma save_twice_witness :
  (Ref.ds_save 0 Ref.data2 Ref.w_new).1 = Ok tt ∧
  remote Ref.w_saved_twice = remote (Ref.ds_save 0 Ref.data2 Ref.w_new).2.
Proof.
  apply (save_twice (SC:=Ref.s3) (TL:=Ref.tables_lib) (KC:=Ref.core)
           0 Ref.ds0 Ref.w_new Ref.path0 Ref.data Ref.data2 Ref.w_saved
           Ref.w_saved_twice);
    vm_compute; reflexivity.
Defined.

Lemma save_rejects_reserved_option_witness :
  (∃ msg, (Ref.ds_save 0 Ref.data Ref.w_mode_save).1 = Raise (TypeError msg)) ∧
  remote (Ref.ds_save 0 Ref.data Ref.w_mode_save).2 = remote Ref.w_mode_save.
Proof.
  destruct (save_rejects_reserved_option (SC:=Ref.s3) (TL:=Ref.tables_lib)
              (KC:=Ref.core) 0 Ref.ds0 Ref.w_mode_save Ref.path0
              {[ "mode" := VStr "a" ]}) as [Hreserved _]; [vm_compute; reflexivity..|].
  apply (Hreserved "mode" Ref.data).
  - apply list_elem_of_here.
  - vm_compute. eexists. reflexivity.
Defined.

Lemma exists_passes_errors_through_witness :
  (Ref.ds_exists 0 Ref.w_garbage).1 = Raise (ValueError "not an HDF5 file image").
Proof.
  destruct (exists_passes_errors_through (SC:=Ref.s3) (TL:=Ref.tables_lib)
              (KC:=Ref.core) 0 Ref.ds0 Ref.w_garbage) as [_ Hresolved];
    [vm_compute; reflexivity|].
  destruct (Hresolved Ref.path0) as [_ Hpresent]; [vm_compute; reflexivity|].
  destruct (Hpresent [Byte.x07]) as [_ Hopen]; [vm_compute; reflexivity..|].
  apply (Hopen {[ "title" := VStr "t" ]}); vm_compute; reflexivity.
Defined.

Lemma load_rejects_reserved_option_witness :
  (∃ msg, (Ref.ds_load 0 Ref.w_mode_load).1 = Raise (TypeError msg)) ∧
  (∃ msg, (Ref.ds_exists 0 Ref.w_mode_load).1 = Raise (TypeError msg)).
Proof.
  destruct (load_rejects_reserved_option (SC:=Ref.s3) (TL:=Ref.tables_lib)
              (KC:=Ref.core) 0 Ref.ds0 Ref.w_mode_load Ref.path0
              {[ "mode" := VStr "a" ]} "mode") as [Hpresent _];
    [vm_compute; reflexivity | vm_compute; reflexivity | vm_compute; reflexivity
    | | | | |].
  - apply list_elem_of_here.
  - vm_compute. eexists. reflexivity.
  - reflexivity.
  - reflexivity.
  - apply Hpresent. vm_compute. eexists. reflexivity.
Defined.

Lemma exists_ignores_leading_slash_witness :
  (Ref.ds_exists 0
     (set_insts (<[0 := with_key "/test_hdf_key" Ref.ds0]> (insts Ref.w_saved))
        Ref.w_saved)).1
  = (Ref.ds_exists 0 Ref.w_saved).1.
Proof.
  apply (exists_ignores_leading_slash (SC:=Ref.s3) (TL:=Ref.tables_lib)
           (KC:=Ref.core) 0 Ref.ds0 Ref.w_saved);
    vm_compute; reflexivity.
Defined.

Lemma exists_then_load_witness :
  ∃ ds store,
    insts Ref.w_saved !! 0 = Some ds ∧
    key_with_slash (_key ds) ∈ Ref.keys store ∧
    (Ref.ds_load 0 Ref.w_saved).1 = Ref.getitem store (_key ds).
Proof.
  apply (proj1 (exists_then_load (SC:=Ref.s3) (TL:=Ref.tables_lib) (KC:=Ref.core)
                  0 Ref.w_saved)).
  vm_compute. reflexivity.
Defined.

Lemma init_option_dicts_are_own_witness :
  ∃ ds, insts Ref.w_new !! 0 = Some ds ∧
    (_load_args ds ∉ dom Ref.caller_heap) ∧ _load_args ds ≠ _save_args ds ∧
    dicts Ref.w_new !! _load_args ds = Some {[ "title" := VStr "t" ]}.
Proof.
  destruct (init_option_dicts_are_own (SC:=Ref.s3) (KC:=Ref.core)
              "s3://path/to/test.hdf" "test_hdf_key" (Some "test_bucket")
              (VRef 1) (VRef 0) VNone None (VRef 3) Ref.world1 0 Ref.w_new)
    as (ds & Hds & Hla & _ & Hne & _ & Hload & _); [vm_compute; reflexivity|].
  exists ds. split_and!; [exact Hds | exact Hla | exact Hne |].
  apply (Hload 0); [reflexivity | vm_compute; reflexivity].
Defined.


Lemma init_path_is_canonical_witness :
  ∃ ds, insts Ref.w_new !! 0 = Some ds ∧
    parse (str (_filepath ds)) = _filepath ds.
Proof.
  destruct (init_path_is_canonical (SC:=Ref.s3) (KC:=Ref.core)
              "s3://path/to/test.hdf" "test_hdf_key" (Some "test_bucket")
              (VRef 1) (VRef 0) VNone None (VRef 3) Ref.world1 0 Ref.w_new)
    as (ds & Hds & Hcanon & _); [vm_compute; reflexivity|].
  exists ds. split; [exact Hds | exact Hcanon].
Defined.
